(** * figma-for-llms: the extraction host ([canvas.ts]) and the token
    estimator of the display surface ([DefaultView.tsx])

  The host walks the selected scene nodes and builds plain JavaScript
  objects; the display surface receives them, shows them as JSON and labels
  them with an estimated token count.  JavaScript values are embedded as
  they are at run time: a Number is an IEEE 754 binary64 value
  ([spec_float] at precision 53), an object is its list of own properties
  in insertion order, an exception is an explicit [Throw]. *)

From Stdlib Require Import ZArith List String Ascii Bool Lia.
From Stdlib Require Import Floats.
From Stdlib Require Import Hexadecimal HexadecimalString HexadecimalPos.
From Stdlib Require Decimal DecimalString.
From Equations Require Import Equations.
Import ListNotations.

#[local] Set Warnings "-register-all".

Local Open Scope string_scope.
Local Open Scope Z_scope.

(* ===================================================================== *)
(** * JavaScript Numbers *)
(* ===================================================================== *)

Module Num.

(** A Number is a binary64 value. *)
Definition number : Type := spec_float.

Definition mul (x y : number) : number := SFmul prec emax x y.
Definition add (x y : number) : number := SFadd prec emax x y.

(** The Number with the value of an integer (rounded when the integer needs
    more than 53 bits); [length] of an array or a string is such a Number. *)
Definition of_Z (k : Z) : number := binary_normalize prec emax k 0 false.
Definition of_nat (n : nat) : number := of_Z (Z.of_nat n).

(** The numeric literals of the sources, each the binary64 value nearest
    to the decimal written. *)
#[local] Set Warnings "-inexact-float".
Definition lit_1 : number := Eval vm_compute in Prim2SF 1%float.
Definition lit_0 : number := Eval vm_compute in Prim2SF 0%float.
Definition lit_255 : number := Eval vm_compute in Prim2SF 255%float.
Definition lit_1_3 : number := Eval vm_compute in Prim2SF 1.3%float.
Definition lit_0_3 : number := Eval vm_compute in Prim2SF 0.3%float.
Definition lit_0_5 : number := Eval vm_compute in Prim2SF 0.5%float.
#[local] Set Warnings "inexact-float".

(** The range of [Math.round]: NaN, an infinity, or an integer.  (The sign
    of a zero result is dropped: neither [toString] nor [Math.max(1, _)]
    can tell [-0] from [0].) *)
Inductive integral : Type :=
| INaN
| IInf (negative : bool)
| IInt (k : Z).

(** [Math.round x]: the integer closest to [x], a tie going to the larger
    one, that is [floor (x + 1/2)] computed exactly.  For [x = ±m·2^e] with
    [e < 0] this is [floor ((±2m + 2^-e) / 2^(1-e))]. *)
Definition Math_round (x : number) : integral :=
  match x with
  | S754_nan => INaN
  | S754_infinity s => IInf s
  | S754_zero _ => IInt 0
  | S754_finite s m e =>
      match e with
      | Zneg p => IInt ((cond_Zopp s (2 * Zpos m) + 2 ^ Zpos p) / 2 ^ (Zpos p + 1))
      | _ => IInt (cond_Zopp s (Zpos m) * 2 ^ e)
      end
  end.

(** [Math.max(1, y)] for an integral [y]: NaN is contagious. *)
Definition Math_max_1 (y : integral) : integral :=
  match y with
  | INaN => INaN
  | IInf true => IInt 1
  | IInf false => IInf false
  | IInt k => IInt (Z.max 1 k)
  end.

(** [y.toString(16)] for an integral [y]: lower-case digits, no prefix, a
    minus sign for a negative value. *)
Definition toString16 (y : integral) : string :=
  match y with
  | INaN => "NaN"
  | IInf false => "Infinity"
  | IInf true => "-Infinity"
  | IInt Z0 => "0"
  | IInt (Zpos p) => NilEmpty.string_of_uint (Pos.to_hex_uint p)
  | IInt (Zneg p) => String "-" (NilEmpty.string_of_uint (Pos.to_hex_uint p))
  end.

(** The integer a Number stands for, when it stands for one. *)
Definition int_value (x : number) : option Z :=
  match x with
  | S754_zero _ => Some 0
  | S754_finite s m (Zneg p) =>
      if (Zpos m mod 2 ^ Zpos p =? 0)
      then Some (cond_Zopp s (Zpos m / 2 ^ Zpos p)) else None
  | S754_finite s m e => Some (cond_Zopp s (Zpos m) * 2 ^ e)
  | _ => None
  end.

(** A Number that is zero, or positive and below [2 ^ B]: its mantissa has
    [Zdigits2 m] bits. *)
Definition below (B : Z) (x : number) : Prop :=
  match x with
  | S754_zero _ => True
  | S754_finite false m e => Zdigits2 (Zpos m) + e <= B
  | _ => False
  end.

(** A shifted mantissa that has lost no set bit. *)
Definition exact_record (mrs : shr_record) : Prop :=
  shr_r mrs = false /\ shr_s mrs = false.

(** A mantissa and an exponent of at most zero that stand for at most [c]:
    [m * 2 ^ e <= c]. *)
Definition at_most (c m e : Z) : Prop := e <= 0 /\ m <= c * 2 ^ (- e).

(** A Number of the unit interval, the contract of a colour channel: a
    valid binary64 value between 0 and 1. *)
Definition unit_interval (x : number) : Prop :=
  SpecFloat.valid_binary prec emax x = true /\ SFleb lit_0 x = true /\ SFleb x lit_1 = true.

(** ** Division and the decimal strings of a Number *)

(** [x / y] *)
Definition div (x y : number) : number := SFdiv prec emax x y.

Definition lit_10 : number := Eval vm_compute in Prim2SF 10%float.
Definition lit_100 : number := Eval vm_compute in Prim2SF 100%float.
Definition lit_1000 : number := Eval vm_compute in Prim2SF 1000%float.

(** The Number an integral result is: a count beyond [2 ^ 53] in size is
    the binary64 value nearest to it. *)
Definition of_integral (y : integral) : number :=
  match y with
  | INaN => S754_nan
  | IInf s => S754_infinity s
  | IInt k => of_Z k
  end.

(** [y < c] for an integer literal [c]: false on NaN. *)
Definition less_than (y : integral) (c : Z) : bool :=
  match y with
  | INaN => false
  | IInf negative => negative
  | IInt k => k <? c
  end.

(** The decimal digits of an integer, with a minus sign when negative. *)
Definition to_decimal (k : Z) : string :=
  DecimalString.NilZero.string_of_int (Z.to_int k).

(** [y.toString()] of an integral Number.  From [10 ^ 21] on the result is
    in exponent notation, which is left out: [None]. *)
Definition toString10 (y : integral) : option string :=
  match y with
  | INaN => Some "NaN"
  | IInf false => Some "Infinity"
  | IInf true => Some "-Infinity"
  | IInt k => if Z.abs k <? 10 ^ 21 then Some (to_decimal k) else None
  end.

(** The integer [n] for which [n / 10] is nearest to [m * 2 ^ e], the
    larger one of two: [floor (10 * m * 2 ^ e + 1/2)]. *)
Definition tenths (m : positive) (e : Z) : Z :=
  match e with
  | Zneg p => (2 * (10 * Zpos m) + 2 ^ Zpos p) / 2 ^ (Zpos p + 1)
  | _ => 10 * Zpos m * 2 ^ e
  end.

(** [x.toFixed(1)]: the sign, then the tenths with a point before the last
    digit.  From [10 ^ 21] on the result is that of [toString], left out. *)
Definition toFixed1 (x : number) : option string :=
  match x with
  | S754_nan => Some "NaN"
  | S754_infinity false => Some "Infinity"
  | S754_infinity true => Some "-Infinity"
  | S754_zero _ => Some "0.0"
  | S754_finite s m e =>
      let n := tenths m e in
      if n <? 10 ^ 22 then
        Some ((if s then "-" else "") ++ to_decimal (n / 10) ++ "." ++ to_decimal (n mod 10))
      else None
  end.

(** The record [mrs] is the quotient [A / B] cut off at its integer part:
    the mantissa is the floor, the round bit tells whether the rest reaches
    one half, the sticky bit whether anything lies beyond that. *)
Definition located (A B : Z) (mrs : shr_record) : Prop :=
  0 <= A - shr_m mrs * B < B
  /\ (shr_r mrs = true <-> B <= 2 * (A - shr_m mrs * B))
  /\ (shr_s mrs = true <-> A - shr_m mrs * B <> 0 /\ 2 * (A - shr_m mrs * B) <> B).

(** A mantissa [m] at an exponent [e <= - g] whose value [m * 2 ^ e] lies
    between [K - 1/2] and [K + 1/2 - 2 ^ - g]: it rounds to the integer [K]. *)
Definition between (g K m e : Z) : Prop :=
  e <= - g
  /\ (2 * K - 1) * 2 ^ (- e - 1) <= m <= ((2 * K + 1) * 2 ^ (g - 1) - 1) * 2 ^ (- e - g).

End Num.

(* ===================================================================== *)
(** * JavaScript strings and values *)
(* ===================================================================== *)

Module JS.

Import Num.

(** [s.padStart(n, "0")]: zeros in front until the length is [n]; a string
    that is already that long is returned as it is. *)
Fixpoint zeros (n : nat) : string :=
  match n with
  | O => ""
  | S n' => String "0" (zeros n')
  end.

Definition padStart0 (n : nat) (s : string) : string :=
  zeros (n - String.length s) ++ s.

(** A value: the primitives, arrays, and objects as the list of their own
    properties in insertion order (the order [JSON.stringify] prints). *)
Inductive value : Type :=
| VUndefined
| VNull
| VBool (b : bool)
| VNum (n : number)
| VStr (s : string)
| VArr (items : list value)
| VObj (props : list (string * value)).

Definition object : Type := list (string * value).

Fixpoint lookup (k : string) (o : object) : option value :=
  match o with
  | [] => None
  | (k', v) :: rest => if String.eqb k k' then Some v else lookup k rest
  end.

(** [k in o] *)
Definition has (k : string) (o : object) : bool :=
  match lookup k o with Some _ => true | None => false end.

(** [o.k = v]: an existing property keeps its place, a new one goes last. *)
Fixpoint set (k : string) (v : value) (o : object) : object :=
  match o with
  | [] => [(k, v)]
  | (k', v') :: rest =>
      if String.eqb k k' then (k', v) :: rest else (k', v') :: set k v rest
  end.

(** Control flow that may throw. *)
Inductive result (A : Type) : Type :=
| Ok (a : A)
| Throw (error : string).
Arguments Ok {A} a.
Arguments Throw {A} error.

Definition bind {A B} (r : result A) (k : A -> result B) : result B :=
  match r with
  | Ok a => k a
  | Throw e => Throw e
  end.

(** [v.k] for an arbitrary value: a [TypeError] on [undefined] and [null],
    the property of an object, [undefined] when there is none.  (Arrays and
    primitives have none of the properties the sources read from
    messages.) *)
Definition get (v : value) (k : string) : result value :=
  match v with
  | VUndefined | VNull => Throw "TypeError"
  | VObj o => Ok (match lookup k o with Some x => x | None => VUndefined end)
  | _ => Ok VUndefined
  end.

(** Truthiness, as [if (v)] and [!v] see it. *)
Definition truthy (v : value) : bool :=
  match v with
  | VUndefined | VNull => false
  | VBool b => b
  | VNum (S754_zero _) | VNum S754_nan => false
  | VNum _ => true
  | VStr s => negb (String.eqb s "")
  | VArr _ | VObj _ => true
  end.

(** [v === "s"] *)
Definition is_str (v : value) (s : string) : bool :=
  match v with
  | VStr s' => String.eqb s' s
  | _ => false
  end.

(** The property names of an object, in insertion order. *)
Definition keys (o : object) : list string := map fst o.

(** The object without the property [k]. *)
Fixpoint remove_key (k : string) (o : object) : object :=
  match o with
  | [] => []
  | (k', v) :: rest => if String.eqb k k' then remove_key k rest else (k', v) :: remove_key k rest
  end.

(** [l] is [l'] with some elements left out, the order kept. *)
Inductive subsequence {A : Type} : list A -> list A -> Prop :=
| subsequence_nil : subsequence [] []
| subsequence_skip x l l' : subsequence l l' -> subsequence l (x :: l')
| subsequence_take x l l' : subsequence l l' -> subsequence (x :: l) (x :: l').

End JS.

(* ===================================================================== *)
(** * The extraction host: [canvas.ts] *)
(* ===================================================================== *)

Module Canvas.

Import Num JS.

(** ** Colours *)

(** [RGB | RGBA]: the alpha channel is there or not. *)
Record Color : Type := mkColor {
  color_r : number;
  color_g : number;
  color_b : number;
  color_a : option number
}.

(** [Math.round(c * 255).toString(16).padStart(2, '0')] *)
Definition hex_channel (c : number) : string :=
  padStart0 2 (toString16 (Math_round (mul c lit_255))).

Definition extractColor (color : Color) : value :=
  let colorObj : object :=
    [("r", VNum (color_r color)); ("g", VNum (color_g color)); ("b", VNum (color_b color))] in
  let colorObj :=
    match color_a color with
    | Some a => set "a" (VNum a) colorObj
    | None => set "a" (VNum lit_1) colorObj
    end in
  let r := hex_channel (color_r color) in
  let g := hex_channel (color_g color) in
  let b := hex_channel (color_b color) in
  let colorObj := set "hex" (VStr ("#" ++ r ++ g ++ b)) colorObj in
  VObj colorObj.

(** The lower-case hexadecimal digit of a value below sixteen. *)
Definition hex_digit (k : Z) : ascii :=
  nth (Z.to_nat k)
    ["0"; "1"; "2"; "3"; "4"; "5"; "6"; "7"; "8"; "9"; "a"; "b"; "c"; "d"; "e"; "f"]%char
    "0"%char.

(** Two digits, the high one first. *)
Definition two_hex_digits (k : Z) : string :=
  String (hex_digit (k / 16)) (String (hex_digit (k mod 16)) "").

(** The number a string of lower-case hexadecimal digits denotes. *)
Definition hex_value (s : string) : option Z :=
  match NilEmpty.uint_of_string s with
  | Some d => Some (Z.of_N (Pos.of_hex_uint d))
  | None => None
  end.

(** The padded writing of [n] is its two digits. *)
Definition two_digits_ok (n : nat) : bool :=
  String.eqb (padStart0 2 (toString16 (IInt (Z.of_nat n)))) (two_hex_digits (Z.of_nat n)).

(** ** Paints *)

(** A paint as [extractPaints] looks at it: the discriminant, and the two
    properties it probes with [in].  The other payload (gradient stops,
    image hashes, ...) is never read. *)
Record Paint : Type := mkPaint {
  paint_type : string;
  paint_opacity : option number;
  paint_color : option Color
}.

Definition extractPaint (paint : Paint) : value :=
  let paintData : object :=
    [("type", VStr (paint_type paint));
     ("opacity", VNum (match paint_opacity paint with Some o => o | None => lit_1 end))] in
  let paintData :=
    if String.eqb (paint_type paint) "SOLID" then
      match paint_color paint with
      | Some c => set "color" (extractColor c) paintData
      | None => paintData
      end
    else paintData in
  VObj paintData.

Definition extractPaints (paints : list Paint) : list value :=
  map extractPaint paints.

(** What the provider's typing promises of a paint: a solid paint carries
    its colour. *)
Definition paint_well_typed (p : Paint) : Prop :=
  paint_type p = "SOLID" -> paint_color p <> None.

(** ** Scene nodes *)

(** A property whose value may be the provider's [figma.mixed] symbol
    instead of a value of its type; [typeof] and [Array.isArray] tell the
    two apart. *)
Inductive or_mixed (A : Type) : Type :=
| Plain (a : A)
| Mixed.
Arguments Plain {A} a.
Arguments Mixed {A}.

(** The properties [extractNodeData] reads, each present or not ([in]). *)
Record NodeProps : Type := mkProps {
  node_name : string;
  node_type : string;
  node_width : option number;
  node_height : option number;
  node_layoutMode : option string;
  node_primaryAxisSizingMode : option string;
  node_counterAxisSizingMode : option string;
  node_primaryAxisAlignItems : option string;
  node_counterAxisAlignItems : option string;
  node_fills : option (or_mixed (list Paint));
  node_strokes : option (or_mixed (list Paint));
  node_strokeWeight : option (or_mixed number);
  node_strokeAlign : option (or_mixed string);
  node_strokeCap : option (or_mixed string);
  node_strokeJoin : option (or_mixed string)
}.

(** A scene node of the provider: its properties and, for a container, its
    children; or a handle whose getters throw (a node the provider has
    removed in the meantime), the failure the [try] in [sendSelectionToUI]
    is there for. *)
Inductive SceneNode : Type :=
| Node (props : NodeProps) (children : option (list SceneNode))
| Unreadable (error : string).

(** [if ('k' in node) nodeData.k = node.k] *)
Definition copy_prop {A} (k : string) (inj : A -> value) (p : option A) (o : object) : object :=
  match p with
  | Some a => set k (inj a) o
  | None => o
  end.

(** The same behind a [typeof] or [Array.isArray] test. *)
Definition copy_plain {A} (k : string) (inj : A -> value) (p : option (or_mixed A)) (o : object) : object :=
  match p with
  | Some (Plain a) => set k (inj a) o
  | _ => o
  end.

(** [extractNodeData] up to the comment "Add children". *)
Definition extractProps (p : NodeProps) : object :=
  let nodeData : object := [("name", VStr (node_name p)); ("type", VStr (node_type p))] in
  let nodeData := copy_prop "width" VNum (node_width p) nodeData in
  let nodeData := copy_prop "height" VNum (node_height p) nodeData in
  let nodeData := copy_prop "layoutMode" VStr (node_layoutMode p) nodeData in
  let nodeData := copy_prop "primaryAxisSizingMode" VStr (node_primaryAxisSizingMode p) nodeData in
  let nodeData := copy_prop "counterAxisSizingMode" VStr (node_counterAxisSizingMode p) nodeData in
  let nodeData := copy_prop "primaryAxisAlignItems" VStr (node_primaryAxisAlignItems p) nodeData in
  let nodeData := copy_prop "counterAxisAlignItems" VStr (node_counterAxisAlignItems p) nodeData in
  let nodeData := copy_plain "fills" (fun ps => VArr (extractPaints ps)) (node_fills p) nodeData in
  let nodeData := copy_plain "strokes" (fun ps => VArr (extractPaints ps)) (node_strokes p) nodeData in
  let nodeData := copy_plain "strokeWeight" VNum (node_strokeWeight p) nodeData in
  let nodeData := copy_plain "strokeAlign" VStr (node_strokeAlign p) nodeData in
  let nodeData := copy_plain "strokeCap" VStr (node_strokeCap p) nodeData in
  let nodeData := copy_plain "strokeJoin" VStr (node_strokeJoin p) nodeData in
  nodeData.

(** [extractNodeData(node, expandContent)].  The loop over the children
    pushes one extracted child after the other; the first child that throws
    ends the whole call. *)
Fixpoint extractNodeData (node : SceneNode) (expandContent : bool) {struct node} : result value :=
  match node with
  | Unreadable e => Throw e
  | Node p children =>
      let nodeData := extractProps p in
      match children with
      | None => Ok (VObj nodeData)
      | Some cs =>
          if expandContent then
            let each :=
              fix each (cs : list SceneNode) : result (list value) :=
                match cs with
                | [] => Ok []
                | child :: rest =>
                    match extractNodeData child expandContent with
                    | Throw e => Throw e
                    | Ok d =>
                        match each rest with
                        | Throw e => Throw e
                        | Ok ds => Ok (d :: ds)
                        end
                    end
                end in
            match each cs with
            | Throw e => Throw e
            | Ok kids => Ok (VObj (set "children" (VArr kids) nodeData))
            end
          else Ok (VObj (set "childrenCount" (VNum (of_nat (List.length cs))) nodeData))
      end
  end.

(** [xs.map(f)] for an [f] that may throw. *)
Fixpoint map_result {A B} (f : A -> result B) (xs : list A) : result (list B) :=
  match xs with
  | [] => Ok []
  | x :: rest =>
      match f x with
      | Throw e => Throw e
      | Ok y =>
          match map_result f rest with
          | Throw e => Throw e
          | Ok ys => Ok (y :: ys)
          end
      end
  end.

(** ** Trees: nodes, records and the paths through them *)

(** Induction over scene nodes, with the hypothesis for every child. *)
Section SceneNode_induction.
Variable P : SceneNode -> Prop.
Hypothesis P_unreadable : forall e, P (Unreadable e).
Hypothesis P_leaf : forall p, P (Node p None).
Hypothesis P_container : forall p cs, Forall P cs -> P (Node p (Some cs)).

Fixpoint SceneNode_children_ind (node : SceneNode) : P node :=
  match node with
  | Unreadable e => P_unreadable e
  | Node p None => P_leaf p
  | Node p (Some cs) =>
      P_container p cs
        ((fix all (l : list SceneNode) : Forall P l :=
            match l with
            | [] => Forall_nil P
            | c :: rest => Forall_cons c (SceneNode_children_ind c) (all rest)
            end) cs)
  end.
End SceneNode_induction.

(** No handle in the tree throws. *)
Fixpoint readable (node : SceneNode) : bool :=
  match node with
  | Unreadable _ => false
  | Node _ None => true
  | Node _ (Some cs) => forallb readable cs
  end.

(** The invariant of an extracted record against its source node, at
    every level of the record: a node without children has neither
    [children] nor [childrenCount]; a container has exactly one of them,
    either the count of its children or the array of their records, which
    satisfy the invariant in turn. *)
Inductive children_invariant : SceneNode -> value -> Prop :=
| inv_no_children p o :
    has "children" o = false ->
    has "childrenCount" o = false ->
    children_invariant (Node p None) (VObj o)
| inv_count p cs o :
    has "children" o = false ->
    lookup "childrenCount" o = Some (VNum (of_nat (List.length cs))) ->
    children_invariant (Node p (Some cs)) (VObj o)
| inv_children p cs o kids :
    lookup "children" o = Some (VArr kids) ->
    has "childrenCount" o = false ->
    Forall2 children_invariant cs kids ->
    children_invariant (Node p (Some cs)) (VObj o).

(** The descendant of a node at a path of child indices. *)
Fixpoint descendant (node : SceneNode) (path : list nat) : option SceneNode :=
  match path with
  | [] => Some node
  | i :: rest =>
      match node with
      | Node _ (Some cs) =>
          match nth_error cs i with
          | Some c => descendant c rest
          | None => None
          end
      | _ => None
      end
  end.

(** The record at a path through the [children] arrays of a record. *)
Fixpoint record_at (v : value) (path : list nat) : option value :=
  match path with
  | [] => Some v
  | i :: rest =>
      match v with
      | VObj o =>
          match lookup "children" o with
          | Some (VArr kids) =>
              match nth_error kids i with
              | Some kid => record_at kid rest
              | None => None
              end
          | _ => None
          end
      | _ => None
      end
  end.

(** Some object inside [v], at any depth, has a property named [k]. *)
Fixpoint mentions (k : string) (v : value) : bool :=
  match v with
  | VObj o => existsb (fun kv => let '(k', v') := kv in String.eqb k k' || mentions k v') o
  | VArr items => existsb (mentions k) items
  | _ => false
  end.

(** A node with a name and a type and nothing else. *)
Definition bare (name type : string) : NodeProps :=
  mkProps name type None None None None None None None None None None None None None.

(** A frame that holds a group with a text in it, and a vector. *)
Definition sample_tree : SceneNode :=
  Node (bare "Card" "FRAME")
    (Some [Node (bare "Row" "GROUP") (Some [Node (bare "Label" "TEXT") None]);
           Node (bare "Icon" "VECTOR") None]).

(** ** The host's side of the protocol *)

(** What the host does to the outside. *)
Inductive effect : Type :=
| ShowUI
| PostMessage (pluginMessage : value)
| Notify (message : value)
| ConsoleError (label : string) (error : string).

Definition selectionChange (data : value) : value :=
  VObj [("type", VStr "selectionChange"); ("data", data)].

Definition error_message : value :=
  VObj [("type", VStr "error"); ("message", VStr "Failed to process selection data")].

(** [sendSelectionToUI(expandContent)] on the current selection. *)
Definition sendSelectionToUI (selection : list SceneNode) (expandContent : bool) : list effect :=
  match selection with
  | [] => [PostMessage (selectionChange VNull)]
  | _ :: _ =>
      match map_result (fun node => extractNodeData node expandContent) selection with
      | Ok selectionData => [PostMessage (selectionChange (VArr selectionData))]
      | Throw e =>
          [ConsoleError "Error sending selection data:" e; PostMessage error_message]
      end
  end.

(** The argument [sendSelectionToUI] is called with, as the flag that
    [extractNodeData] branches on: the default [false] stands in for
    [undefined], any other value counts by its truthiness. *)
Definition expand_flag (arg : value) : bool :=
  match arg with
  | VUndefined => false
  | v => truthy v
  end.

(** [figma.ui.onmessage] *)
Definition onmessage (selection : list SceneNode) (msg : value) : result (list effect) :=
  bind (get msg "type") (fun t =>
    if is_str t "toggleExpand" then
      bind (get msg "expandContent") (fun e => Ok (sendSelectionToUI selection (expand_flag e)))
    else if is_str t "notify" then
      bind (get msg "message") (fun m => Ok [Notify m])
    else if is_str t "init" then
      Ok (sendSelectionToUI selection true)
    else Ok []).

(** What can happen to the host: the script starts, the provider reports a
    changed selection, the surface posts a message. *)
Inductive event : Type :=
| Startup
| SelectionChange
| Message (msg : value).

(** One turn of the host's event loop, on the selection current at that
    moment.  The host keeps no variable between turns. *)
Definition handle (selection : list SceneNode) (ev : event) : result (list effect) :=
  match ev with
  | Startup => Ok (ShowUI :: sendSelectionToUI selection true)
  | SelectionChange => Ok (sendSelectionToUI selection false)
  | Message msg => onmessage selection msg
  end.

(** A session: each event with the selection it finds. *)
Definition run (trace : list (list SceneNode * event)) : list (result (list effect)) :=
  map (fun '(selection, ev) => handle selection ev) trace.

(** ** The vocabulary of the protocol *)

(** The discriminant of a message, when it has one. *)
Definition message_type (msg : value) : option string :=
  match msg with
  | VObj o =>
      match lookup "type" o with
      | Some (VStr t) => Some t
      | _ => None
      end
  | _ => None
  end.

(** The messages of the table that go to the host, with the payload the
    table gives each: [init] with none, [toggleExpand] with a boolean
    [expandContent], [notify] with a string [message]. *)
Definition well_formed_for_host (msg : value) : bool :=
  match msg with
  | VObj o =>
      match message_type msg with
      | Some t =>
          if String.eqb t "init" then true
          else if String.eqb t "toggleExpand" then
            match lookup "expandContent" o with Some (VBool _) => true | _ => false end
          else if String.eqb t "notify" then
            match lookup "message" o with Some (VStr _) => true | _ => false end
          else false
      | None => false
      end
  | _ => false
  end.

(** The expand preference the surface sent last: the flag of the latest
    [toggleExpand] among the events so far (oldest first). *)
Fixpoint last_preference (history : list event) : option bool :=
  match history with
  | [] => None
  | ev :: later =>
      match last_preference later with
      | Some b => Some b
      | None =>
          match ev with
          | Message (VObj o) =>
              if is_str (match lookup "type" o with Some t => t | None => VUndefined end)
                        "toggleExpand"
              then Some (expand_flag (match lookup "expandContent" o with
                                      | Some e => e
                                      | None => VUndefined
                                      end))
              else None
          | _ => None
          end
      end
  end.

(** ** What a record holds and when extraction fails *)

(** The value of a property that is there and is not [figma.mixed]. *)
Definition plain {A : Type} (p : option (or_mixed A)) : option A :=
  match p with
  | Some (Plain a) => Some a
  | _ => None
  end.

(** The order in which [extractNodeData] writes the properties of a record. *)
Definition canonical_keys : list string :=
  ["name"; "type"; "width"; "height"; "layoutMode"; "primaryAxisSizingMode";
   "counterAxisSizingMode"; "primaryAxisAlignItems"; "counterAxisAlignItems";
   "fills"; "strokes"; "strokeWeight"; "strokeAlign"; "strokeCap"; "strokeJoin";
   "children"; "childrenCount"].

(** The error of the first node, in document order, that cannot be read. *)
Fixpoint first_error (node : SceneNode) : option string :=
  match node with
  | Unreadable e => Some e
  | Node _ None => None
  | Node _ (Some cs) =>
      (fix among (cs : list SceneNode) : option string :=
         match cs with
         | [] => None
         | c :: rest =>
             match first_error c with
             | Some e => Some e
             | None => among rest
             end
         end) cs
  end.

(** The messages posted to the surface among the effects of a turn. *)
Definition posts (effects : list effect) : list value :=
  flat_map (fun e => match e with PostMessage m => [m] | _ => [] end) effects.

End Canvas.

(* ===================================================================== *)
(** * The display surface: [DefaultView.tsx] *)
(* ===================================================================== *)

Module DefaultView.

Import Num JS.

(** ** The token estimator *)

(** The text to estimate, as the UTF-16 code units of the JavaScript
    string. *)
Definition text : Type := list N.

(** [\s]: the white space and line terminator code points. *)
Definition is_space (c : N) : bool :=
  ((9 <=? c) && (c <=? 13) || (c =? 32) || (c =? 160) || (c =? 5760)
   || (8192 <=? c) && (c <=? 8202) || (c =? 8232) || (c =? 8233)
   || (c =? 8239) || (c =? 8287) || (c =? 12288) || (c =? 65279))%N.

(** The class of the second pattern: braces, brackets, the double quote
    (code 34), comma and colon. *)
Definition is_special (c : N) : bool :=
  ((c =? 123) || (c =? 125) || (c =? 91) || (c =? 93)
   || (c =? 34) || (c =? 44) || (c =? 58))%N.

(** [\d] *)
Definition is_digit (c : N) : bool := ((48 <=? c) && (c <=? 57))%N.

(** [\.] *)
Definition is_dot (c : N) : bool := (c =? 46)%N.

(** [text.split(/\s+/)]: the pieces between the maximal runs of white
    space; [piece] is the piece being read, [in_sep] tells that the last
    unit belonged to a separator.  A text that starts or ends with white
    space has an empty first or last piece. *)
Fixpoint split_from (in_sep : bool) (piece : list N) (s : text) : list (list N) :=
  match s with
  | [] => [piece]
  | c :: rest =>
      if is_space c then
        if in_sep then split_from true piece rest
        else piece :: split_from true [] rest
      else split_from false (piece ++ [c])%list rest
  end.

Definition split_spaces (s : text) : list (list N) := split_from false [] s.

(** [text.match(_) || []] for the pattern of that class with the [g] flag:
    every unit of the class is a match of its own. *)
Definition match_special (s : text) : list (list N) :=
  map (fun c => [c]) (filter is_special s).

(** The longest prefix of digits, and what follows it. *)
Fixpoint span_digits (s : text) : list N * text :=
  match s with
  | [] => ([], [])
  | c :: rest =>
      if is_digit c then let '(ds, r) := span_digits rest in (c :: ds, r)
      else ([], s)
  end.

(** One attempt of [/\d+(\.\d+)?/] at the start of [s]: the match and the
    rest of the text.  [\d+] takes every digit there is; the group is taken
    when a dot and at least one digit follow. *)
Definition match_number_at (s : text) : option (list N * text) :=
  match span_digits s with
  | ([], _) => None
  | (ds, r) =>
      match r with
      | c :: r' =>
          if is_dot c then
            match span_digits r' with
            | ([], _) => Some (ds, r)
            | (fs, r'') => Some ((ds ++ c :: fs)%list, r'')
            end
          else Some (ds, r)
      | [] => Some (ds, r)
      end
  end.

Lemma span_digits_length (s : text) :
  (List.length (fst (span_digits s)) + List.length (snd (span_digits s)) = List.length s)%nat.
Proof.
  induction s as [|c rest IH]; simpl; [reflexivity|].
  destruct (is_digit c); simpl; [|reflexivity].
  destruct (span_digits rest) as [ds r]; simpl in *. lia.
Qed.

Lemma match_number_at_shorter (s : text) (m : list N) (rest : text) :
  match_number_at s = Some (m, rest) -> (List.length rest < List.length s)%nat.
Proof.
  unfold match_number_at.
  pose proof (span_digits_length s) as H.
  destruct (span_digits s) as [ds r]; simpl in H.
  destruct ds as [|d ds]; [discriminate|].
  destruct r as [|c r'].
  - intros [= <- <-]; simpl in *; lia.
  - destruct (is_dot c).
    + pose proof (span_digits_length r') as H'.
      destruct (span_digits r') as [fs r'']; simpl in H'.
      destruct fs; intros [= <- <-]; simpl in *; lia.
    + intros [= <- <-]; simpl in *; lia.
Qed.

Definition inspect {A} (a : A) : {b : A | a = b} := exist _ a eq_refl.

(** [text.match(/\d+(\.\d+)?/g) || []]: the attempt is made at each
    position from the left; after a match the search goes on behind it. *)
Equations? match_number (s : text) : list (list N) by wf (List.length s) lt :=
  match_number [] := [];
  match_number (c :: r) with inspect (match_number_at (c :: r)) => {
    | exist _ (Some (m, rest)) H := m :: match_number rest;
    | exist _ None _ := match_number r }.
Proof.
  exact (match_number_at_shorter (c :: r) m rest H).
Qed.

(** [text.split(/\s+/).filter(word => word.length > 0)] *)
Definition words (s : text) : list (list N) :=
  filter (fun word => (0 <? List.length word)%nat) (split_spaces s).

(** [calculateTokens(text)].  The sum is evaluated from the left in
    binary64; the result is [0] for the empty text and else what
    [Math.max(1, Math.round(_))] returns. *)
Definition calculateTokens (s : text) : integral :=
  match s with
  | [] => IInt 0
  | _ :: _ =>
      let wordCount := List.length (words s) in
      let specialChars := List.length (match_special s) in
      let numbers := List.length (match_number s) in
      Math_max_1
        (Math_round
           (add (add (mul (of_nat wordCount) lit_1_3) (mul (of_nat specialChars) lit_0_3))
                (mul (of_nat numbers) lit_0_5)))
  end.

(** The three counts as the description of the estimator words them. *)

(** Runs of units that satisfy [p], counted at their first unit; [inside]
    tells that the previous unit satisfied [p]. *)
Fixpoint count_runs (p : N -> bool) (inside : bool) (s : text) : nat :=
  match s with
  | [] => 0
  | c :: rest =>
      if p c then ((if inside then 0 else 1) + count_runs p true rest)%nat
      else count_runs p false rest
  end.

(** Whitespace-delimited non-empty runs. *)
Definition wordCount (s : text) : nat := count_runs (fun c => negb (is_space c)) false s.

(** Characters of the structural set. *)
Definition specialCharCount (s : text) : nat := List.length (filter is_special s).

(** Where a left-to-right reader of number tokens stands: outside a token,
    in its digits, behind the one dot that may follow them, in the digits
    behind that dot. *)
Inductive number_state : Type := Outside | InDigits | AfterDot | InFraction.

(** Maximal digit runs, each optionally followed by a single dot and more
    digits, counted at their first digit. *)
Fixpoint count_numbers (st : number_state) (s : text) : nat :=
  match s with
  | [] => 0
  | c :: rest =>
      if is_digit c then
        match st with
        | Outside => S (count_numbers InDigits rest)
        | InDigits => count_numbers InDigits rest
        | AfterDot | InFraction => count_numbers InFraction rest
        end
      else if is_dot c then
        match st with
        | InDigits => count_numbers AfterDot rest
        | _ => count_numbers Outside rest
        end
      else count_numbers Outside rest
  end.

Definition numberTokenCount (s : text) : nat := count_numbers Outside s.

(** The seven units of the text that is an opening brace, a quoted [a],
    a colon, the digit one and a closing brace. *)
Definition sample_json : text := [123; 34; 97; 34; 58; 49; 125]%N.

(** ** The surface's side of the protocol *)

(** The state the message handler writes and the rendering reads. *)
Record state : Type := mkState {
  selectionData : value;
  includeChildren : bool
}.

(** [useState(null)] and [useState(true)] *)
Definition initial : state := {| selectionData := VNull; includeChildren := true |}.

Definition setSelectionData (data : value) (st : state) : state :=
  {| selectionData := data; includeChildren := includeChildren st |}.

(** [window.onmessage], on [event.data]. *)
Definition window_onmessage (st : state) (data : value) : result state :=
  bind (get data "pluginMessage") (fun message =>
    if truthy message then
      bind (get message "type") (fun t =>
        if is_str t "selectionChange" then
          bind (get message "data") (fun d => Ok (setSelectionData d st))
        else Ok st)
    else Ok st).

(** [Array.isArray(selectionData) && selectionData.length === 1 ?
    selectionData[0] : selectionData], the value that is serialized. *)
Definition dataToShow (selectionData : value) : value :=
  match selectionData with
  | VArr [only] => only
  | v => v
  end.

(** The messages of the table that go to the surface, with the payload
    the table gives each: [selectionChange] with [data] that is [null], a
    record or an array of records, [error] with a string [message]. *)
Definition well_formed_for_surface (message : value) : bool :=
  match message with
  | VObj o =>
      match Canvas.message_type message with
      | Some t =>
          if String.eqb t "selectionChange" then
            match lookup "data" o with
            | Some VNull | Some (VObj _) | Some (VArr _) => true
            | _ => false
            end
          else if String.eqb t "error" then
            match lookup "message" o with Some (VStr _) => true | _ => false end
          else false
      | None => false
      end
  | _ => false
  end.

(** ** The shape of the estimator's matches *)

Definition not_space (c : N) : bool := negb (is_space c).


(** ** The label of a token count *)

(** [formatTokenCount(count)], on the integral Numbers [calculateTokens]
    returns. *)
Definition formatTokenCount (count : integral) : option string :=
  if less_than count 1000 then toString10 count
  else if less_than count 10000 then
    option_map (fun s => s ++ "k")
      (toFixed1 (div (of_integral (Math_round (div (of_integral count) lit_100))) lit_10))
  else
    option_map (fun s => s ++ "k")
      (toString10 (Math_round (div (of_integral count) lit_1000))).

(** The label in exact arithmetic: the count itself below 1000, then the
    count rounded to hundreds (half up) and written in thousands with one
    decimal, and from 10000 on the count rounded to thousands (half up). *)
Definition short_label (k : Z) : string :=
  if k <? 1000 then to_decimal k
  else if k <? 10000 then
    let q := (k + 50) / 100 in (to_decimal (q / 10) ++ "." ++ to_decimal (q mod 10)) ++ "k"
  else to_decimal ((k + 500) / 1000) ++ "k".

(** [(q / 10).toFixed(1)] is [q] with a point before its last digit. *)
Definition tenths_agree (n : nat) : bool :=
  let q := Z.of_nat n in
  match toFixed1 (div (of_Z q) lit_10) with
  | Some s => String.eqb s (to_decimal (q / 10) ++ "." ++ to_decimal (q mod 10))
  | None => false
  end.

(** ** What the surface sends and receives *)

(** [event.data] of a message the host posted. *)
Definition envelope (pluginMessage : value) : value :=
  VObj [("pluginMessage", pluginMessage)].

(** The host's messages arriving one after the other. *)
Fixpoint deliver (st : state) (messages : list value) : result state :=
  match messages with
  | [] => Ok st
  | m :: rest =>
      match window_onmessage st (envelope m) with
      | Ok st' => deliver st' rest
      | Throw e => Throw e
      end
  end.

(** The message of the mount effect. *)
Definition init_message : value := VObj [("type", VStr "init")].

(** The message of the effect on [includeChildren] and [selectionData]. *)
Definition toggleExpand_message (includeChildren : bool) : value :=
  VObj [("type", VStr "toggleExpand"); ("expandContent", VBool includeChildren)].

(** The body of that effect: what it posts in a given state. *)
Definition toggleExpand_effect (st : state) : list value :=
  if truthy (selectionData st) then [toggleExpand_message (includeChildren st)] else [].

(** The message [copyToClipboard] posts. *)
Definition copied_message : value :=
  VObj [("type", VStr "notify"); ("message", VStr "Copied to clipboard!")].

(** The checkbox: [setIncludeChildren(!includeChildren)]. *)
Definition toggleIncludeChildren (st : state) : state :=
  {| selectionData := selectionData st; includeChildren := negb (includeChildren st) |}.

End DefaultView.


(* ===================================================================== *)
(** * Properties *)
(* ===================================================================== *)

Import Num JS Canvas DefaultView.

(** ** Binary64 arithmetic on counts *)

(** A power of two is positive. *)
Ltac pow_positive := apply Z.pow_pos_nonneg; lia.

(** The exponent range of binary64, spelled out for [lia]. *)
Ltac binary64_constants := unfold fexp, SpecFloat.emin, prec, emax in *.

Lemma digits2_pos_size (p : positive) : digits2_pos p = Pos.size p.
Proof. induction p; simpl; congruence. Qed.

Lemma digits_bounds (p : positive) :
  2 ^ (Zdigits2 (Zpos p) - 1) <= Zpos p < 2 ^ Zdigits2 (Zpos p).
Proof.
  unfold Zdigits2. rewrite digits2_pos_size.
  pose proof (Pos.size_gt p) as Hgt. pose proof (Pos.size_le p) as Hle.
  apply Pos2Z.pos_lt_pos in Hgt. apply Pos2Z.pos_le_pos in Hle.
  rewrite Pos2Z.inj_pow in Hgt, Hle.
  split; [|exact Hgt].
  replace (Zpos (Pos.size p)) with (Z.succ (Zpos (Pos.size p) - 1)) in Hle by lia.
  rewrite Z.pow_succ_r in Hle by lia.
  change (Zpos p~0) with (2 * Zpos p) in Hle. lia.
Qed.

Lemma digits_pos (p : positive) : 1 <= Zdigits2 (Zpos p).
Proof. simpl. lia. Qed.

Lemma digits_le (p : positive) (n : Z) :
  0 <= n -> Zpos p < 2 ^ n -> Zdigits2 (Zpos p) <= n.
Proof.
  intros Hn Hlt. destruct (digits_bounds p) as [Hlo _].
  destruct (Z.le_gt_cases (Zdigits2 (Zpos p)) n) as [H|H]; [exact H|exfalso].
  assert (2 ^ n <= 2 ^ (Zdigits2 (Zpos p) - 1)) by (apply Z.pow_le_mono_r; lia).
  lia.
Qed.

Lemma digits_nonneg (m : Z) : 0 <= Zdigits2 m.
Proof. destruct m; simpl; lia. Qed.

Lemma digits_div2 (m : Z) :
  0 <= m -> Zdigits2 (Z.div2 m) = Z.max 0 (Zdigits2 m - 1).
Proof.
  destruct m as [|[p|p|]|p]; intros H; try lia;
    unfold Z.div2, Zdigits2; cbn [digits2_pos PosDef.Pos.div2 Pos.div2];
    try rewrite Pos2Z.inj_succ; lia.
Qed.

Lemma shr_1_m (mrs : shr_record) :
  0 <= shr_m mrs -> shr_m (shr_1 mrs) = Z.div2 (shr_m mrs).
Proof.
  destruct mrs as [m r s]. simpl. destruct m as [|[p|p|]|p]; simpl; intros H; try reflexivity; lia.
Qed.

Lemma iter_shr_1 (p : positive) :
  forall mrs, 0 <= shr_m mrs ->
    0 <= shr_m (iter_pos shr_1 p mrs)
    /\ Zdigits2 (shr_m (iter_pos shr_1 p mrs)) = Z.max 0 (Zdigits2 (shr_m mrs) - Zpos p).
Proof.
  assert (step : forall mrs, 0 <= shr_m mrs ->
            0 <= shr_m (shr_1 mrs)
            /\ Zdigits2 (shr_m (shr_1 mrs)) = Z.max 0 (Zdigits2 (shr_m mrs) - 1)).
  { intros mrs H. rewrite shr_1_m by exact H. split; [|apply digits_div2, H].
    destruct (shr_m mrs) as [|[q|q|]|q]; simpl; lia. }
  induction p as [p IH|p IH|]; intros mrs H; simpl.
  - destruct (step mrs H) as [H1 E1].
    destruct (IH _ H1) as [H2 E2]. destruct (IH _ H2) as [H3 E3].
    split; [exact H3|]. rewrite E3, E2, E1. pose proof (digits_nonneg (shr_m mrs)). lia.
  - destruct (IH _ H) as [H2 E2]. destruct (IH _ H2) as [H3 E3].
    split; [exact H3|]. rewrite E3, E2. pose proof (digits_nonneg (shr_m mrs)). lia.
  - apply step, H.
Qed.

Lemma shr_fexp_bounds (m e : Z) (l : location) :
  0 <= m ->
  let '(mrs, e') := shr_fexp prec emax m e l in
  0 <= shr_m mrs
  /\ e' = Z.max e (fexp prec emax (Zdigits2 m + e))
  /\ Zdigits2 (shr_m mrs) = Z.max 0 (Zdigits2 m - (e' - e)).
Proof.
  intros Hm. unfold shr_fexp, shr.
  assert (Hrec : shr_m (shr_record_of_loc m l) = m) by (destruct l as [|[| |]]; reflexivity).
  destruct (fexp prec emax (Zdigits2 m + e) - e) as [|p|p] eqn:En.
  - rewrite Hrec. pose proof (digits_nonneg m). repeat split; lia.
  - destruct (iter_shr_1 p (shr_record_of_loc m l)) as [H1 H2]; [rewrite Hrec; exact Hm|].
    rewrite Hrec in H2. repeat split; [exact H1|lia|rewrite H2; lia].
  - rewrite Hrec. pose proof (digits_nonneg m). repeat split; lia.
Qed.

Lemma round_nearest_even_bounds (m : Z) (l : location) :
  0 <= m ->
  0 <= round_nearest_even m l /\ Zdigits2 (round_nearest_even m l) <= Zdigits2 m + 1.
Proof.
  intros Hm.
  assert (Hsucc : 0 <= m + 1 /\ Zdigits2 (m + 1) <= Zdigits2 m + 1).
  { split; [lia|]. destruct m as [|p|p]; [simpl; lia| |lia].
    change (Zpos p + 1) with (Zpos (p + 1)).
    apply digits_le; [pose proof (digits_pos p); lia|].
    destruct (digits_bounds p) as [_ Hhi].
    rewrite Z.pow_add_r by (pose proof (digits_pos p); lia). lia. }
  unfold round_nearest_even. destruct l as [|[| |]]; try (split; lia); try exact Hsucc.
  destruct (Z.even m); [split; lia|exact Hsucc].
Qed.

Lemma binary_round_aux_below (m : positive) (e B : Z) :
  Zdigits2 (Zpos m) + e <= B -> -1074 <= B <= 972 ->
  below (B + 1) (binary_round_aux prec emax false (Zpos m) e loc_Exact).
Proof.
  intros Hd HB. unfold binary_round_aux.
  pose proof (shr_fexp_bounds (Zpos m) e loc_Exact ltac:(lia)) as H1.
  destruct (shr_fexp prec emax (Zpos m) e loc_Exact) as [mrs1 e1].
  destruct H1 as [Hm1 [He1 Hd1]].
  pose proof (round_nearest_even_bounds (shr_m mrs1) (loc_of_shr_record mrs1) Hm1) as [Hr Hrd].
  pose proof (shr_fexp_bounds (round_nearest_even (shr_m mrs1) (loc_of_shr_record mrs1)) e1
                loc_Exact Hr) as H2.
  destruct (shr_fexp prec emax _ e1 loc_Exact) as [mrs2 e2].
  destruct H2 as [Hm2 [He2 Hd2]].
  pose proof (digits_pos m) as Hp.
  binary64_constants.
  destruct (shr_m mrs2) as [|m2|m2] eqn:E2; [exact I| |lia].
  replace (e2 <=? 1024 - 53) with true by (symmetry; apply Z.leb_le; lia).
  unfold below. lia.
Qed.

Lemma digits_mul (a b : positive) :
  Zdigits2 (Zpos (a * b)) <= Zdigits2 (Zpos a) + Zdigits2 (Zpos b).
Proof.
  pose proof (digits_pos a). pose proof (digits_pos b).
  destruct (digits_bounds a) as [_ Ha]. destruct (digits_bounds b) as [_ Hb].
  apply digits_le; [lia|].
  rewrite Pos2Z.inj_mul, Z.pow_add_r by lia.
  apply Z.mul_lt_mono_nonneg; lia.
Qed.

Lemma digits_add (a b : positive) (M : Z) :
  Zdigits2 (Zpos a) <= M -> Zdigits2 (Zpos b) <= M -> Zdigits2 (Zpos (a + b)) <= M + 1.
Proof.
  intros Ha Hb. pose proof (digits_pos a).
  destruct (digits_bounds a) as [_ Ha']. destruct (digits_bounds b) as [_ Hb'].
  apply digits_le; [lia|].
  assert (2 ^ Zdigits2 (Zpos a) <= 2 ^ M) by (apply Z.pow_le_mono_r; lia).
  assert (2 ^ Zdigits2 (Zpos b) <= 2 ^ M) by (apply Z.pow_le_mono_r; lia).
  rewrite Pos2Z.inj_add, Z.pow_add_r by lia. lia.
Qed.

Lemma digits_iter_xO (m d : positive) :
  Zdigits2 (Zpos (Pos.iter xO m d)) = Zdigits2 (Zpos m) + Zpos d.
Proof.
  induction d as [|d IH] using Pos.peano_ind.
  - simpl. rewrite Pos2Z.inj_succ. lia.
  - rewrite Pos.iter_succ. unfold Zdigits2 in *. cbn [digits2_pos].
    rewrite !Pos2Z.inj_succ, IH. lia.
Qed.

Lemma shl_align_digits (m : positive) (e e' : Z) :
  Zdigits2 (Zpos (fst (shl_align m e e'))) + snd (shl_align m e e') = Zdigits2 (Zpos m) + e
  /\ snd (shl_align m e e') = Z.min e e'.
Proof.
  unfold shl_align. destruct (e' - e) as [|d|d] eqn:E; cbn [fst snd].
  - lia.
  - lia.
  - rewrite digits_iter_xO. lia.
Qed.

Lemma binary_round_below (m : positive) (e B : Z) :
  Zdigits2 (Zpos m) + e <= B -> -1074 <= B <= 972 ->
  below (B + 1) (binary_round prec emax false m e).
Proof.
  intros Hd HB. unfold binary_round.
  pose proof (shl_align_digits m e (fexp prec emax (Zpos (digits2_pos m) + e))) as [Hs _].
  destruct (shl_align m e _) as [mz ez]. cbn [fst snd] in Hs.
  apply binary_round_aux_below; [|exact HB]. lia.
Qed.

Lemma of_Z_below (k : Z) : 0 <= k < 2 ^ 53 -> below 54 (of_Z k).
Proof.
  intros Hk. unfold of_Z, binary_normalize. destruct k as [|p|p]; [exact I| |lia].
  apply (binary_round_below p 0 53); [|lia].
  pose proof (digits_le p 53 ltac:(lia) ltac:(lia)). lia.
Qed.

Lemma mul_below (Bx By : Z) (x y : number) :
  below Bx x -> below By y -> -1074 <= Bx + By <= 972 -> below (Bx + By + 1) (mul x y).
Proof.
  intros Hx Hy HB. unfold mul, SFmul.
  destruct x as [sx|sx| |[|] mx ex], y as [sy|sy| |[|] my ey]; cbn [below] in Hx, Hy; try contradiction;
    try exact I.
  simpl xorb. apply binary_round_aux_below; [|exact HB].
  pose proof (digits_mul mx my). lia.
Qed.

Lemma add_below (Bx By : Z) (x y : number) :
  below Bx x -> below By y -> -1074 <= Z.max Bx By <= 971 ->
  below (Z.max Bx By + 2) (add x y).
Proof.
  intros Hx Hy HB. unfold add, SFadd.
  destruct x as [sx|sx| |[|] mx ex], y as [sy|sy| |[|] my ey]; cbn [below] in Hx, Hy; try contradiction.
  - destruct sx, sy; exact I.
  - cbn [below]. lia.
  - cbn [below]. lia.
  - pose proof (shl_align_digits mx ex (Z.min ex ey)) as [Hax Hex].
    pose proof (shl_align_digits my ey (Z.min ex ey)) as [Hay Hey].
    destruct (shl_align mx ex (Z.min ex ey)) as [a ea].
    destruct (shl_align my ey (Z.min ex ey)) as [b eb].
    cbn [fst snd] in Hax, Hex, Hay, Hey. cbn [fst cond_Zopp].
    change (Zpos a + Zpos b) with (Zpos (a + b)). unfold binary_normalize.
    replace (Z.max Bx By + 2) with ((Z.max Bx By + 1) + 1) by lia.
    apply binary_round_below; [|lia].
    pose proof (digits_add a b (Z.max Bx By - Z.min ex ey) ltac:(lia) ltac:(lia)). lia.
Qed.

Lemma Math_round_below (B : Z) (x : number) :
  below B x -> exists k, Math_round x = IInt k /\ 0 <= k.
Proof.
  destruct x as [s|s| |[|] m e]; cbn [below Math_round]; try contradiction; intros _.
  - exists 0. split; [reflexivity|lia].
  - destruct e as [|p|p]; eexists; (split; [reflexivity|]); cbn [cond_Zopp].
    + apply Z.mul_nonneg_nonneg; [lia|apply Z.pow_nonneg; lia].
    + apply Z.mul_nonneg_nonneg; [lia|apply Z.pow_nonneg; lia].
    + apply Z.div_pos; [|pow_positive].
      assert (0 < 2 ^ Zpos p) by pow_positive. lia.
Qed.

Lemma weighted_sum_integral (w s n : nat) :
  Z.of_nat w < 2 ^ 53 -> Z.of_nat s < 2 ^ 53 -> Z.of_nat n < 2 ^ 53 ->
  exists k,
    Math_round (add (add (mul (of_nat w) lit_1_3) (mul (of_nat s) lit_0_3))
                    (mul (of_nat n) lit_0_5)) = IInt k
    /\ 0 <= k.
Proof.
  intros Hw Hs Hn.
  assert (B13 : below 1 lit_1_3) by (vm_compute; discriminate).
  assert (B03 : below 1 lit_0_3) by (vm_compute; discriminate).
  assert (B05 : below 1 lit_0_5) by (vm_compute; discriminate).
  pose proof (mul_below 54 1 _ _ (of_Z_below (Z.of_nat w) ltac:(lia)) B13 ltac:(lia)) as Mw.
  pose proof (mul_below 54 1 _ _ (of_Z_below (Z.of_nat s) ltac:(lia)) B03 ltac:(lia)) as Ms.
  pose proof (mul_below 54 1 _ _ (of_Z_below (Z.of_nat n) ltac:(lia)) B05 ltac:(lia)) as Mn.
  pose proof (add_below _ _ _ _ Mw Ms ltac:(lia)) as A1.
  pose proof (add_below _ _ _ _ A1 Mn ltac:(lia)) as A2.
  eapply Math_round_below. exact A2.
Qed.

Lemma iter_xO_value (m d : positive) :
  Zpos (Pos.iter xO m d) = Zpos m * 2 ^ Zpos d.
Proof.
  induction d as [|d IH] using Pos.peano_ind.
  - cbn [Pos.iter]. rewrite Z.pow_1_r. lia.
  - rewrite Pos.iter_succ, Pos2Z.inj_succ, Z.pow_succ_r by lia.
    change (Zpos (Pos.iter xO m d)~0) with (2 * Zpos (Pos.iter xO m d)). rewrite IH. lia.
Qed.

Lemma binary_round_aux_canonical (m : positive) (e : Z) :
  Zdigits2 (Zpos m) = 53 -> -1074 <= e <= 971 ->
  binary_round_aux prec emax false (Zpos m) e loc_Exact = S754_finite false m e.
Proof.
  intros Hd He.
  assert (Hn : fexp prec emax (Zdigits2 (Zpos m) + e) - e = 0).
  { rewrite Hd. unfold fexp, SpecFloat.emin, prec, emax. lia. }
  unfold binary_round_aux, shr_fexp. rewrite Hn. cbn [shr shr_record_of_loc shr_m loc_of_shr_record
    round_nearest_even]. rewrite Hn. cbn [shr shr_record_of_loc shr_m].
  replace (e <=? emax - prec) with true; [reflexivity|].
  symmetry. apply Z.leb_le. unfold emax, prec. lia.
Qed.

Lemma of_Z_exact (k : Z) :
  0 <= k < 2 ^ 53 -> int_value (of_Z k) = Some k /\ Math_round (of_Z k) = IInt k.
Proof.
  intros Hk. destruct k as [|p|p]; [split; reflexivity| |lia].
  unfold of_Z, binary_normalize, binary_round.
  pose proof (digits_le p 53 ltac:(lia) ltac:(lia)) as Hd. pose proof (digits_pos p) as Hp.
  change (Zpos (digits2_pos p)) with (Zdigits2 (Zpos p)).
  assert (Hf : fexp prec emax (Zdigits2 (Zpos p) + 0) = Zdigits2 (Zpos p) - 53).
  { unfold fexp, SpecFloat.emin, prec, emax. lia. }
  rewrite Hf. unfold shl_align.
  destruct (Zdigits2 (Zpos p) - 53 - 0) as [|q|q] eqn:Eq; [|lia|].
  - rewrite binary_round_aux_canonical by lia.
    cbn [int_value Math_round cond_Zopp]. rewrite Z.pow_0_r, Z.mul_1_r. split; reflexivity.
  - rewrite binary_round_aux_canonical by (rewrite ?digits_iter_xO; lia).
    replace (Zdigits2 (Zpos p) - 53) with (Zneg q) by lia.
    cbn [int_value Math_round cond_Zopp]. rewrite iter_xO_value.
    assert (Hpow : 0 < 2 ^ Zpos q) by pow_positive.
    rewrite Z.mod_mul, Z.div_mul by lia. simpl Z.eqb. split; [reflexivity|].
    f_equal. rewrite Z.pow_add_r, Z.pow_1_r by lia.
    replace (2 * (Zpos p * 2 ^ Zpos q) + 2 ^ Zpos q) with ((2 * Zpos p + 1) * 2 ^ Zpos q) by lia.
    rewrite Z.mul_comm with (n := 2 ^ Zpos q), Z.div_mul_cancel_r by lia.
    rewrite Z.mul_comm, Z.div_add_l by lia. simpl. lia.
Qed.

(** ** Binary64 rounding of a channel *)

Lemma mod_mul_split (m a b : Z) :
  0 < a -> 0 < b -> m mod (a * b) = 0 -> m mod a = 0 /\ (m / a) mod b = 0.
Proof.
  intros Ha Hb H. apply Z.mod_divide in H; [|lia]. destruct H as [k ->].
  replace (k * (a * b)) with (k * b * a) by lia.
  rewrite Z.mod_mul, Z.div_mul, Z.mod_mul by lia. split; reflexivity.
Qed.

Lemma shr_1_value (mrs : shr_record) :
  0 <= shr_m mrs ->
  shr_m (shr_1 mrs) = shr_m mrs / 2
  /\ 0 <= shr_m (shr_1 mrs)
  /\ (exact_record mrs -> shr_m mrs mod 2 = 0 -> exact_record (shr_1 mrs)).
Proof.
  intros H. rewrite shr_1_m by exact H. rewrite Z.div2_div.
  split; [reflexivity|]. split; [apply Z.div_pos; lia|].
  destruct mrs as [m r s]. unfold exact_record. cbn [shr_m shr_r shr_s shr_1] in *.
  intros [-> ->] Hmod.
  destruct m as [|[p|p|]|p]; cbn [shr_r shr_s orb]; try (split; reflexivity); try lia.
  - rewrite Pos2Z.inj_xI, Z.add_comm, Z.mul_comm, Z.mod_add in Hmod by lia. discriminate.
  - discriminate.
Qed.

Lemma iter_shr_1_value (p : positive) :
  forall mrs, 0 <= shr_m mrs ->
    shr_m (iter_pos shr_1 p mrs) = shr_m mrs / 2 ^ Zpos p
    /\ 0 <= shr_m (iter_pos shr_1 p mrs)
    /\ (exact_record mrs -> shr_m mrs mod 2 ^ Zpos p = 0 ->
        exact_record (iter_pos shr_1 p mrs)).
Proof.
  induction p as [p IH|p IH|]; intros mrs H; cbn [iter_pos].
  - assert (Hpow : 0 < 2 ^ Zpos p) by pow_positive.
    destruct (shr_1_value mrs H) as [E1 [H1 X1]].
    destruct (IH _ H1) as [E2 [H2 X2]]. destruct (IH _ H2) as [E3 [H3 X3]].
    assert (Epow : 2 ^ Zpos p~1 = 2 * (2 ^ Zpos p * 2 ^ Zpos p)).
    { replace (Zpos p~1) with (1 + (Zpos p + Zpos p)) by lia.
      rewrite !Z.pow_add_r, Z.pow_1_r by lia. reflexivity. }
    split; [|split; [exact H3|]].
    + rewrite E3, E2, E1, Epow, !Z.div_div by lia. reflexivity.
    + intros Hx Hmod. rewrite Epow in Hmod.
      apply mod_mul_split in Hmod; [|lia|lia]. destruct Hmod as [Hm1 Hm2].
      apply mod_mul_split in Hm2; [|lia|lia]. destruct Hm2 as [Hm2 Hm3].
      apply X3; [apply X2; [apply X1; assumption|]|].
      * rewrite E1. exact Hm2.
      * rewrite E2, E1. exact Hm3.
  - assert (Hpow : 0 < 2 ^ Zpos p) by pow_positive.
    destruct (IH _ H) as [E2 [H2 X2]]. destruct (IH _ H2) as [E3 [H3 X3]].
    assert (Epow : 2 ^ Zpos p~0 = 2 ^ Zpos p * 2 ^ Zpos p).
    { replace (Zpos p~0) with (Zpos p + Zpos p) by lia.
      rewrite Z.pow_add_r by lia. reflexivity. }
    split; [|split; [exact H3|]].
    + rewrite E3, E2, Epow, Z.div_div by lia. reflexivity.
    + intros Hx Hmod. rewrite Epow in Hmod.
      apply mod_mul_split in Hmod; [|lia|lia]. destruct Hmod as [Hm1 Hm2].
      apply X3; [apply X2; assumption|]. rewrite E2. exact Hm2.
  - rewrite Z.pow_1_r. apply shr_1_value, H.
Qed.

Lemma shr_fexp_value (m e : Z) :
  0 <= m ->
  let '(mrs, e') := shr_fexp prec emax m e loc_Exact in
  e' = Z.max e (fexp prec emax (Zdigits2 m + e))
  /\ shr_m mrs = m / 2 ^ (e' - e)
  /\ (m mod 2 ^ (e' - e) = 0 -> loc_of_shr_record mrs = loc_Exact).
Proof.
  intros Hm. unfold shr_fexp, shr. cbn [shr_record_of_loc].
  destruct (fexp prec emax (Zdigits2 m + e) - e) as [|p|p] eqn:En.
  - cbn [shr_m loc_of_shr_record]. rewrite Z.sub_diag, Z.pow_0_r, Z.div_1_r.
    split; [lia|]. split; reflexivity.
  - destruct (iter_shr_1_value p {| shr_m := m; shr_r := false; shr_s := false |} Hm)
      as [E [_ X]].
    cbn [shr_m] in E, X.
    replace (e + Zpos p - e) with (Zpos p) by lia.
    split; [lia|]. split; [exact E|].
    intros Hmod. destruct (X (conj eq_refl eq_refl) Hmod) as [Hr Hs].
    destruct (iter_pos shr_1 p _) as [m' r' s']. cbn [shr_r shr_s] in Hr, Hs. subst.
    reflexivity.
  - cbn [shr_m loc_of_shr_record]. rewrite Z.sub_diag, Z.pow_0_r, Z.div_1_r.
    split; [lia|]. split; reflexivity.
Qed.

Lemma round_nearest_even_le (m : Z) (l : location) :
  m <= round_nearest_even m l <= m + 1 /\ round_nearest_even m loc_Exact = m.
Proof.
  split; [|reflexivity]. unfold round_nearest_even.
  destruct l as [|[| |]]; try lia. destruct (Z.even m); lia.
Qed.

Lemma fexp_at_most (c m e : Z) :
  0 < c < 2 ^ 53 -> 0 <= m -> at_most c m e ->
  Z.max e (fexp prec emax (Zdigits2 m + e)) <= 0.
Proof.
  intros Hc Hm [He Hle].
  unfold fexp, SpecFloat.emin, prec, emax.
  destruct m as [|p|p]; [cbn [Zdigits2]; lia| |lia].
  destruct (digits_bounds p) as [Hlo _]. pose proof (digits_pos p) as Hp.
  assert (Hlt : 2 ^ (Zdigits2 (Zpos p) - 1) < 2 ^ (53 - e)).
  { replace (53 - e) with (53 + - e) by lia. rewrite Z.pow_add_r by lia.
    assert (0 < 2 ^ (- e)) by pow_positive. nia. }
  apply Z.pow_lt_mono_r_iff in Hlt; lia.
Qed.

Lemma binary_round_aux_at_most (c : Z) (m : positive) (e : Z) :
  0 < c < 2 ^ 53 -> at_most c (Zpos m) e ->
  match binary_round_aux prec emax false (Zpos m) e loc_Exact with
  | S754_zero _ => True
  | S754_finite false m' e' => at_most c (Zpos m') e'
  | _ => False
  end.
Proof.
  intros Hc Hat. unfold binary_round_aux.
  pose proof (fexp_at_most c (Zpos m) e Hc ltac:(lia) Hat) as He1.
  pose proof (shr_fexp_value (Zpos m) e ltac:(lia)) as H1.
  destruct (shr_fexp prec emax (Zpos m) e loc_Exact) as [mrs1 e1].
  destruct H1 as [E1 [V1 X1]]. rewrite <- E1 in He1.
  destruct Hat as [He Hle].
  assert (Hge : e <= e1) by lia.
  assert (Hp1 : 0 < 2 ^ (e1 - e)) by pow_positive.
  assert (Hsplit : 2 ^ (- e) = 2 ^ (- e1) * 2 ^ (e1 - e)).
  { rewrite <- Z.pow_add_r by lia. f_equal. lia. }
  assert (Hfloor : 0 <= shr_m mrs1 <= c * 2 ^ (- e1)).
  { rewrite V1. split; [apply Z.div_pos; lia|].
    apply Z.div_le_upper_bound; [lia|]. rewrite Hsplit in Hle. lia. }
  set (m1 := round_nearest_even (shr_m mrs1) (loc_of_shr_record mrs1)).
  assert (Hm1 : 0 <= m1 <= c * 2 ^ (- e1)).
  { destruct (round_nearest_even_le (shr_m mrs1) (loc_of_shr_record mrs1)) as [Hr _].
    fold m1 in Hr. split; [lia|].
    destruct (Z.eq_dec (shr_m mrs1) (c * 2 ^ (- e1))) as [Heq|Hne]; [|lia].
    assert (Hex : Zpos m mod 2 ^ (e1 - e) = 0).
    { assert (Hm : Zpos m = c * 2 ^ (- e1) * 2 ^ (e1 - e)).
      { pose proof (Z.mul_div_le (Zpos m) (2 ^ (e1 - e)) Hp1) as Hd.
        rewrite <- V1, Heq in Hd. rewrite Hsplit in Hle. lia. }
      rewrite Hm. apply Z.mod_mul. lia. }
    unfold m1. rewrite (X1 Hex). cbn [round_nearest_even]. lia. }
  pose proof (fexp_at_most c m1 e1 Hc ltac:(lia) (conj He1 (proj2 Hm1))) as He2.
  pose proof (shr_fexp_value m1 e1 ltac:(lia)) as H2.
  destruct (shr_fexp prec emax m1 e1 loc_Exact) as [mrs2 e2].
  destruct H2 as [E2 [V2 _]]. rewrite <- E2 in He2.
  assert (Hge2 : e1 <= e2) by lia.
  assert (Hp2 : 0 < 2 ^ (e2 - e1)) by pow_positive.
  assert (Hsplit2 : 2 ^ (- e1) = 2 ^ (- e2) * 2 ^ (e2 - e1)).
  { rewrite <- Z.pow_add_r by lia. f_equal. lia. }
  assert (Hm2 : 0 <= shr_m mrs2 <= c * 2 ^ (- e2)).
  { rewrite V2. split; [apply Z.div_pos; lia|].
    apply Z.div_le_upper_bound; [lia|]. rewrite Hsplit2 in Hm1. lia. }
  destruct (shr_m mrs2) as [|m2|m2]; [exact I| |lia].
  replace (e2 <=? emax - prec) with true
    by (symmetry; apply Z.leb_le; unfold emax, prec; lia).
  split; [exact He2|lia].
Qed.

Lemma Math_round_at_most (c : Z) (m : positive) (e : Z) :
  0 < c -> at_most c (Zpos m) e ->
  exists k, Math_round (S754_finite false m e) = IInt k /\ 0 <= k <= c.
Proof.
  intros Hc [He Hle]. cbn [Math_round cond_Zopp].
  destruct e as [|p|p]; [| lia |].
  - exists (Zpos m * 2 ^ 0). split; [reflexivity|]. cbn [Z.opp] in Hle.
    rewrite Z.pow_0_r in Hle |- *. lia.
  - cbn [Z.opp] in Hle.
    assert (Hp : 0 < 2 ^ Zpos p) by pow_positive.
    eexists. split; [reflexivity|]. rewrite Z.pow_add_r, Z.pow_1_r by lia. split.
    + apply Z.div_pos; lia.
    + apply Z.lt_succ_r. apply Z.div_lt_upper_bound; [lia|]. nia.
Qed.

Lemma unit_interval_at_most (s : bool) (m : positive) (e : Z) :
  unit_interval (S754_finite s m e) -> s = false /\ at_most 1 (Zpos m) e.
Proof.
  intros [Hv [H0 H1]].
  destruct s; [discriminate H0|]. split; [reflexivity|].
  cbn [SpecFloat.valid_binary] in Hv.
  unfold SpecFloat.bounded, SpecFloat.canonical_mantissa in Hv.
  apply andb_prop in Hv. destruct Hv as [Hcan _]. apply Z.eqb_eq in Hcan.
  change (Zpos (digits2_pos m)) with (Zdigits2 (Zpos m)) in Hcan.
  unfold fexp, SpecFloat.emin, prec, emax in Hcan.
  destruct (digits_bounds m) as [_ Hhi].
  assert (Hd : Zdigits2 (Zpos m) <= 53) by lia.
  assert (Hm : Zpos m < 2 ^ 53).
  { eapply Z.lt_le_trans; [exact Hhi|]. apply Z.pow_le_mono_r; lia. }
  unfold SFleb, SFcompare, lit_1 in H1.
  destruct (Z.compare_spec e (-52)) as [He|He|He]; try discriminate H1.
  - subst e. split; [lia|].
    rewrite Pos.compare_cont_spec in H1. cbn [Pos.switch_Eq] in H1.
    change (2 ^ (- -52)) with 4503599627370496.
    destruct (Pos.compare_spec m 4503599627370496) as [Hc|Hc|Hc]; try discriminate H1.
    + subst m. lia.
    + apply Pos2Z.pos_lt_pos in Hc. lia.
  - split; [lia|].
    assert (2 ^ 53 <= 2 ^ (- e)) by (apply Z.pow_le_mono_r; lia). lia.
Qed.

Lemma channel_rounds_to_byte (x : number) :
  unit_interval x ->
  exists k, Math_round (mul x lit_255) = IInt k /\ 0 <= k <= 255.
Proof.
  intros Hx. destruct x as [s|s| |s m e].
  - exists 0. split; [reflexivity|lia].
  - destruct Hx as [_ [H0 H1]]. destruct s; discriminate.
  - destruct Hx as [_ [H0 _]]. discriminate.
  - destruct (unit_interval_at_most s m e Hx) as [-> [He Hle]].
    unfold mul, SFmul, lit_255. cbn [xorb].
    match goal with
    | |- context [binary_round_aux _ _ _ (Zpos (m * ?M)) ?E _] =>
        assert (Hat : at_most 255 (Zpos (m * M)) E)
    end.
    { split; [lia|].
      replace (- (e + -45)) with (- e + 45) by lia.
      rewrite Z.pow_add_r, Pos2Z.inj_mul by lia.
      change (2 ^ 45) with 35184372088832. lia. }
    pose proof (binary_round_aux_at_most 255 _ _ ltac:(lia) Hat) as Hr.
    destruct (binary_round_aux prec emax false _ _ loc_Exact) as [s'|s'| |[|] m' e'];
      try contradiction.
    + exists 0. split; [reflexivity|lia].
    + apply Math_round_at_most; [lia|exact Hr].
Qed.

(** ** Hexadecimal channels *)

Lemma uint_of_string_zeros (n : nat) (s : string) (d : Hexadecimal.uint) :
  NilEmpty.uint_of_string s = Some d ->
  exists d', NilEmpty.uint_of_string (zeros n ++ s) = Some d'
             /\ Pos.of_hex_uint d' = Pos.of_hex_uint d.
Proof.
  intros H. induction n as [|n [d' [Hd' Hv]]]; simpl.
  - exists d. split; [assumption|reflexivity].
  - exists (D0 d'). rewrite Hd'. split; [reflexivity|exact Hv].
Qed.

Lemma hex_value_padStart0 (n : nat) (p : positive) :
  hex_value (padStart0 n (toString16 (IInt (Zpos p)))) = Some (Zpos p).
Proof.
  unfold hex_value, padStart0; simpl toString16.
  destruct (uint_of_string_zeros (n - String.length (NilEmpty.string_of_uint (Pos.to_hex_uint p)))
              _ _ (NilEmpty.usu (Pos.to_hex_uint p))) as [d' [-> Hv]].
  rewrite Hv, Unsigned.of_to. reflexivity.
Qed.

Lemma hex_value_channel (k : Z) :
  0 <= k -> hex_value (padStart0 2 (toString16 (IInt k))) = Some k.
Proof.
  destruct k as [|p|p]; intros Hk.
  - reflexivity.
  - apply hex_value_padStart0.
  - lia.
Qed.

Lemma two_digits_table : forallb two_digits_ok (seq 0 256) = true.
Proof. vm_compute. reflexivity. Qed.

Lemma two_digits_channel (k : Z) :
  0 <= k <= 255 -> padStart0 2 (toString16 (IInt k)) = two_hex_digits k.
Proof.
  intros Hk.
  pose proof (proj1 (forallb_forall _ _) two_digits_table (Z.to_nat k)) as H.
  unfold two_digits_ok in H. rewrite Z2Nat.id in H by lia.
  apply String.eqb_eq, H, in_seq. lia.
Qed.

(** C4. [extractColor] copies the three channels, takes the alpha of the
    source or 1 when there is none, and writes [hex] as a hash sign and one
    group of digits per channel, each the lower-case hexadecimal writing of
    [Math.round(channel * 255)] padded with zeros to two places: exactly two
    digits when that integer is within 0..255, as it is for every channel
    between 0 and 1, and all of its digits, unclamped, when it is larger.
    Pure red with alpha 1, or with no alpha, gives [#ff0000].  The function
    is total: every colour has a record. *)
Theorem extractColor_encodes (color : Color) :
  extractColor color =
    VObj [("r", VNum (color_r color)); ("g", VNum (color_g color)); ("b", VNum (color_b color));
          ("a", VNum (match color_a color with Some a => a | None => lit_1 end));
          ("hex", VStr ("#" ++ hex_channel (color_r color) ++ hex_channel (color_g color)
                            ++ hex_channel (color_b color)))]
  /\ (forall x k, In x [color_r color; color_g color; color_b color] ->
        Math_round (mul x lit_255) = IInt k -> 0 <= k <= 255 ->
        hex_channel x = two_hex_digits k)
  /\ (forall x k, In x [color_r color; color_g color; color_b color] ->
        Math_round (mul x lit_255) = IInt k -> 0 <= k ->
        hex_value (hex_channel x) = Some k)
  /\ (forall x, In x [color_r color; color_g color; color_b color] ->
        unit_interval x ->
        exists k, Math_round (mul x lit_255) = IInt k /\ 0 <= k <= 255
                  /\ hex_channel x = two_hex_digits k)
  /\ extractColor (mkColor lit_1 lit_0 lit_0 (Some lit_1)) =
       VObj [("r", VNum lit_1); ("g", VNum lit_0); ("b", VNum lit_0); ("a", VNum lit_1);
             ("hex", VStr "#ff0000")]
  /\ extractColor (mkColor lit_1 lit_0 lit_0 None) =
       VObj [("r", VNum lit_1); ("g", VNum lit_0); ("b", VNum lit_0); ("a", VNum lit_1);
             ("hex", VStr "#ff0000")].
Proof.
  split; [|split; [|split; [|split; [|split]]]].
  - unfold extractColor. destruct (color_a color); reflexivity.
  - intros x k _ Hr Hk. unfold hex_channel. rewrite Hr. apply two_digits_channel, Hk.
  - intros x k _ Hr Hk. unfold hex_channel. rewrite Hr. apply hex_value_channel, Hk.
  - intros x _ Hx. destruct (channel_rounds_to_byte x Hx) as [k [Hr Hk]].
    exists k. split; [exact Hr|]. split; [exact Hk|].
    unfold hex_channel. rewrite Hr. apply two_digits_channel, Hk.
  - vm_compute. reflexivity.
  - vm_compute. reflexivity.
Qed.

Lemma extractColor_encodes_witness :
  unit_interval lit_1
  /\ exists k, Math_round (mul lit_1 lit_255) = IInt k /\ 0 <= k <= 255
               /\ hex_channel lit_1 = two_hex_digits k.
Proof.
  assert (Hunit : unit_interval lit_1) by (repeat split; reflexivity).
  split; [exact Hunit|].
  destruct (extractColor_encodes (mkColor lit_1 lit_0 lit_0 None)) as [_ [_ [_ [H _]]]].
  exact (H lit_1 (or_introl eq_refl) Hunit).
Defined.

(** A channel of 2, outside the contract, is written with three digits. *)
Example extractColor_out_of_range :
  extractColor (mkColor (of_Z 2) lit_0 lit_0 None) =
    VObj [("r", VNum (of_Z 2)); ("g", VNum lit_0); ("b", VNum lit_0); ("a", VNum lit_1);
          ("hex", VStr "#1fe0000")].
Proof. vm_compute. reflexivity. Qed.

(** ** Paints *)

Lemma extractPaint_shape (p : Paint) :
  exists o, extractPaint p = VObj o
    /\ lookup "type" o = Some (VStr (paint_type p))
    /\ lookup "opacity" o
         = Some (VNum (match paint_opacity p with Some x => x | None => lit_1 end))
    /\ (paint_type p <> "SOLID" ->
          o = [("type", VStr (paint_type p));
               ("opacity", VNum (match paint_opacity p with Some x => x | None => lit_1 end))])
    /\ (has "color" o = true <-> paint_type p = "SOLID" /\ paint_color p <> None)
    /\ (forall c, paint_type p = "SOLID" -> paint_color p = Some c ->
          lookup "color" o = Some (extractColor c)).
Proof.
  unfold extractPaint.
  destruct (String.eqb_spec (paint_type p) "SOLID") as [Hs|Hs].
  - destruct (paint_color p) as [c|] eqn:Hc; eexists; (split; [reflexivity|]).
    + split; [reflexivity|]. split; [reflexivity|]. split; [congruence|].
      split; [|intros c' _ [= <-]; reflexivity].
      split; [intros _; split; congruence|reflexivity].
    + split; [reflexivity|]. split; [reflexivity|]. split; [congruence|].
      split; [|intros c' _ [=]].
      split; [cbn; discriminate|intros [_ H]; congruence].
  - eexists; (split; [reflexivity|]).
    split; [reflexivity|]. split; [reflexivity|]. split; [reflexivity|].
    split; [|intros c' H; congruence].
    split; [cbn; discriminate|intros [H _]; congruence].
Qed.

(** C3. [extractPaints] returns one record per paint, in the order of the
    input: the record at index [i] has the type of the paint at [i], its
    opacity or 1 when the paint has none; for a paint that is not solid the
    record has these two properties and no other; and the record has a
    [color], the encoded colour of the paint, exactly when the paint is
    solid.  The function is total. *)
Theorem extractPaints_normalizes (paints : list Paint) :
  Forall paint_well_typed paints ->
  List.length (extractPaints paints) = List.length paints
  /\ forall i p, nth_error paints i = Some p ->
       exists o, nth_error (extractPaints paints) i = Some (VObj o)
         /\ lookup "type" o = Some (VStr (paint_type p))
         /\ lookup "opacity" o
              = Some (VNum (match paint_opacity p with Some x => x | None => lit_1 end))
         /\ (paint_type p <> "SOLID" ->
               o = [("type", VStr (paint_type p));
                    ("opacity", VNum (match paint_opacity p with Some x => x | None => lit_1 end))])
         /\ (has "color" o = true <-> paint_type p = "SOLID").
Proof.
  intros Hwt. split.
  - apply length_map.
  - intros i p Hp.
    destruct (extractPaint_shape p) as [o [Ho [Ht [Hop [Hns [Hc _]]]]]].
    exists o. unfold extractPaints. rewrite nth_error_map, Hp. simpl. rewrite Ho.
    repeat split; try assumption.
    + intros H. apply Hc in H. tauto.
    + intros Hs. apply Hc. split; [assumption|].
      rewrite Forall_forall in Hwt. apply (Hwt p); [|assumption].
      eapply nth_error_In; eassumption.
Qed.

Lemma extractPaints_normalizes_witness :
  Forall paint_well_typed
    [mkPaint "SOLID" None (Some (mkColor lit_1 lit_0 lit_0 None));
     mkPaint "GRADIENT_LINEAR" (Some lit_0_5) None]
  /\ List.length
       (extractPaints [mkPaint "SOLID" None (Some (mkColor lit_1 lit_0 lit_0 None));
                       mkPaint "GRADIENT_LINEAR" (Some lit_0_5) None]) = 2%nat
  /\ nth_error
       (extractPaints [mkPaint "SOLID" None (Some (mkColor lit_1 lit_0 lit_0 None));
                       mkPaint "GRADIENT_LINEAR" (Some lit_0_5) None]) 1
     = Some (VObj [("type", VStr "GRADIENT_LINEAR"); ("opacity", VNum lit_0_5)]).
Proof.
  assert (Hwt : Forall paint_well_typed
            [mkPaint "SOLID" None (Some (mkColor lit_1 lit_0 lit_0 None));
             mkPaint "GRADIENT_LINEAR" (Some lit_0_5) None]).
  { repeat constructor; unfold paint_well_typed; simpl; congruence. }
  split; [exact Hwt|].
  destruct (extractPaints_normalizes _ Hwt) as [Hlen Hnth].
  split; [exact Hlen|].
  destruct (Hnth 1%nat _ eq_refl) as [o [Ho [_ [_ [Hns _]]]]].
  rewrite Ho, Hns; [reflexivity|simpl; discriminate].
Defined.

Example extractPaints_solid :
  extractPaints [mkPaint "SOLID" None (Some (mkColor lit_0 lit_1 lit_0 None))]
  = [VObj [("type", VStr "SOLID"); ("opacity", VNum lit_1);
           ("color", VObj [("r", VNum lit_0); ("g", VNum lit_1); ("b", VNum lit_0);
                           ("a", VNum lit_1); ("hex", VStr "#00ff00")])]].
Proof. vm_compute. reflexivity. Qed.

(** ** Objects *)

Lemma lookup_set_same (k : string) (v : value) (o : object) :
  lookup k (set k v o) = Some v.
Proof.
  induction o as [|[k' v'] rest IH]; simpl.
  - rewrite String.eqb_refl. reflexivity.
  - destruct (String.eqb k k') eqn:E; simpl; rewrite E; [reflexivity|exact IH].
Qed.

Lemma lookup_set_other (k k' : string) (v : value) (o : object) :
  k <> k' -> lookup k (set k' v o) = lookup k o.
Proof.
  intros Hne. induction o as [|[k'' v''] rest IH]; simpl.
  - apply String.eqb_neq in Hne. rewrite Hne. reflexivity.
  - destruct (String.eqb k' k'') eqn:E; simpl.
    + apply String.eqb_eq in E. subst k''.
      apply String.eqb_neq in Hne. rewrite Hne. reflexivity.
    + destruct (String.eqb k k''); [reflexivity|exact IH].
Qed.

Lemma mentions_set (k k' : string) (v : value) (o : object) :
  k <> k' -> mentions k v = false -> mentions k (VObj o) = false ->
  mentions k (VObj (set k' v o)) = false.
Proof.
  intros Hne Hv. apply String.eqb_neq in Hne.
  induction o as [|[k'' v''] rest IH]; simpl; intros Ho.
  - rewrite Hne, Hv. reflexivity.
  - apply orb_false_iff in Ho. destruct Ho as [Hhd Htl].
    apply orb_false_iff in Hhd. destruct Hhd as [Hk Hv''].
    destruct (String.eqb k' k'') eqn:E; simpl.
    + rewrite Hk, Hv, Htl. reflexivity.
    + rewrite Hk, Hv''. simpl. apply IH. exact Htl.
Qed.

(** ** The properties of a node *)

Lemma lookup_copy_prop {A} (k k' : string) (inj : A -> value) (p : option A) (o : object) :
  k <> k' -> lookup k (copy_prop k' inj p o) = lookup k o.
Proof.
  intros Hne. destruct p; simpl; [apply lookup_set_other, Hne|reflexivity].
Qed.

Lemma lookup_copy_plain {A} (k k' : string) (inj : A -> value) (p : option (or_mixed A))
    (o : object) :
  k <> k' -> lookup k (copy_plain k' inj p o) = lookup k o.
Proof.
  intros Hne. destruct p as [[a|]|]; simpl; [apply lookup_set_other, Hne|reflexivity..].
Qed.

Lemma mentions_copy_prop {A} (k k' : string) (inj : A -> value) (p : option A) (o : object) :
  k <> k' -> (forall a, mentions k (inj a) = false) -> mentions k (VObj o) = false ->
  mentions k (VObj (copy_prop k' inj p o)) = false.
Proof.
  intros Hne Hinj Ho. destruct p; simpl; [apply mentions_set; auto|exact Ho].
Qed.

Lemma mentions_copy_plain {A} (k k' : string) (inj : A -> value) (p : option (or_mixed A))
    (o : object) :
  k <> k' -> (forall a, mentions k (inj a) = false) -> mentions k (VObj o) = false ->
  mentions k (VObj (copy_plain k' inj p o)) = false.
Proof.
  intros Hne Hinj Ho. destruct p as [[a|]|]; simpl; [apply mentions_set; auto|exact Ho..].
Qed.

Lemma extractPaints_no_children (ps : list Paint) :
  mentions "children" (VArr (extractPaints ps)) = false.
Proof.
  simpl. induction ps as [|p rest IH]; simpl; [reflexivity|].
  rewrite IH, orb_false_r.
  unfold extractPaint.
  destruct (String.eqb (paint_type p) "SOLID"); [|reflexivity].
  destruct (paint_color p) as [c|]; [|reflexivity].
  unfold extractColor. destruct (color_a c); reflexivity.
Qed.

Lemma extractProps_lookup_children (p : NodeProps) :
  lookup "children" (extractProps p) = None
  /\ lookup "childrenCount" (extractProps p) = None.
Proof.
  unfold extractProps.
  split; repeat (first [rewrite lookup_copy_plain by discriminate
                       |rewrite lookup_copy_prop by discriminate]); reflexivity.
Qed.

Lemma extractProps_no_children (p : NodeProps) :
  mentions "children" (VObj (extractProps p)) = false.
Proof.
  unfold extractProps.
  repeat (first [apply mentions_copy_plain; [discriminate| |]
                |apply mentions_copy_prop; [discriminate| |]]);
    try (intros; reflexivity); try (intros; apply extractPaints_no_children).
Qed.

(** ** Extraction *)

Lemma map_result_Forall2 {A B} (f : A -> result B) (xs : list A) (ys : list B) :
  map_result f xs = Ok ys -> Forall2 (fun x y => f x = Ok y) xs ys.
Proof.
  revert ys. induction xs as [|x rest IH]; simpl; intros ys H.
  - injection H as <-. constructor.
  - destruct (f x) as [y|e] eqn:Hx; [|discriminate].
    destruct (map_result f rest) as [ys'|e]; [|discriminate].
    injection H as <-. constructor; [exact Hx|apply IH; reflexivity].
Qed.

Lemma map_result_total {A B} (f : A -> result B) (xs : list A) :
  Forall (fun x => exists y, f x = Ok y) xs -> exists ys, map_result f xs = Ok ys.
Proof.
  induction 1 as [|x rest [y Hy] _ [ys Hys]]; simpl.
  - eexists; reflexivity.
  - rewrite Hy, Hys. eexists; reflexivity.
Qed.

Lemma map_result_throws {A B} (f : A -> result B) (xs : list A) (x : A) (e : string) :
  In x xs -> f x = Throw e -> exists e', map_result f xs = Throw e'.
Proof.
  induction xs as [|x' rest IH]; simpl; intros Hin Hx; [contradiction|].
  destruct Hin as [->|Hin].
  - rewrite Hx. eexists; reflexivity.
  - destruct (f x'); [|eexists; reflexivity].
    destruct (IH Hin Hx) as [e' ->]. eexists; reflexivity.
Qed.

(** The loop over the children is [map] with the same flag. *)
Lemma extractNodeData_container (p : NodeProps) (cs : list SceneNode) (expandContent : bool) :
  extractNodeData (Node p (Some cs)) expandContent =
    if expandContent then
      match map_result (fun child => extractNodeData child expandContent) cs with
      | Throw e => Throw e
      | Ok kids => Ok (VObj (set "children" (VArr kids) (extractProps p)))
      end
    else Ok (VObj (set "childrenCount" (VNum (of_nat (List.length cs))) (extractProps p))).
Proof.
  simpl. destruct expandContent; [|reflexivity].
  match goal with
  | |- match ?loop cs with _ => _ end = _ =>
      assert (E : forall l, loop l = map_result (fun child => extractNodeData child true) l)
  end.
  { induction l as [|c rest IH]; [reflexivity|].
    simpl. destruct (extractNodeData c true); [|reflexivity].
    rewrite IH. reflexivity. }
  rewrite E. reflexivity.
Qed.

Lemma extractNodeData_readable (node : SceneNode) (expandContent : bool) :
  readable node = true -> exists out, extractNodeData node expandContent = Ok out.
Proof.
  induction node as [e|p|p cs IH] using SceneNode_children_ind; intros Hr.
  - discriminate.
  - eexists; reflexivity.
  - rewrite extractNodeData_container. destruct expandContent; [|eexists; reflexivity].
    simpl in Hr. rewrite forallb_forall in Hr.
    destruct (map_result_total (fun child => extractNodeData child true) cs) as [kids ->].
    + rewrite Forall_forall in IH |- *. intros c Hc. apply IH; auto.
    + eexists; reflexivity.
Qed.

Lemma extractNodeData_invariant (node : SceneNode) (expandContent : bool) (out : value) :
  extractNodeData node expandContent = Ok out -> children_invariant node out.
Proof.
  revert out.
  induction node as [e|p|p cs IH] using SceneNode_children_ind; intros out H.
  - discriminate.
  - simpl in H. injection H as <-.
    destruct (extractProps_lookup_children p) as [Hc Hn].
    constructor; unfold has; [rewrite Hc|rewrite Hn]; reflexivity.
  - rewrite extractNodeData_container in H.
    destruct (extractProps_lookup_children p) as [Hc Hn].
    destruct expandContent.
    + destruct (map_result _ cs) as [kids|e] eqn:Hk; [|discriminate].
      injection H as <-.
      apply inv_children with (kids := kids).
      * apply lookup_set_same.
      * unfold has. rewrite lookup_set_other, Hn by discriminate. reflexivity.
      * apply map_result_Forall2 in Hk.
        induction Hk as [|c kid cs' kids' Hc' _ IHk]; constructor.
        -- inversion IH; subst. auto.
        -- apply IHk. inversion IH; subst. assumption.
    + injection H as <-. apply inv_count.
      * unfold has. rewrite lookup_set_other, Hc by discriminate. reflexivity.
      * apply lookup_set_same.
Qed.

(** C1. Whatever the node and the flag, the record [extractNodeData]
    returns satisfies the invariant of the children at every level: a node
    with children has exactly one of [children] and [childrenCount], the
    count being the Number of its children (the integer itself, for every
    length an array can have) and the array holding one record per child
    that satisfies the invariant in turn; a node without children has
    neither.  A record is returned for every node whose handles can be
    read. *)
Theorem extractNodeData_children (node : SceneNode) (expandContent : bool) :
  (forall out, extractNodeData node expandContent = Ok out -> children_invariant node out)
  /\ (readable node = true -> exists out, extractNodeData node expandContent = Ok out)
  /\ (forall p cs out, node = Node p (Some cs) -> extractNodeData node expandContent = Ok out ->
        exists o, out = VObj o
          /\ xorb (has "children" o) (has "childrenCount" o) = true
          /\ (has "childrenCount" o = true ->
                lookup "childrenCount" o = Some (VNum (of_nat (List.length cs)))
                /\ (Z.of_nat (List.length cs) < 2 ^ 53 ->
                    int_value (of_nat (List.length cs)) = Some (Z.of_nat (List.length cs)))))
  /\ (forall p out, node = Node p None -> extractNodeData node expandContent = Ok out ->
        exists o, out = VObj o /\ has "children" o = false /\ has "childrenCount" o = false).
Proof.
  split; [|split; [|split]].
  - intros out. apply extractNodeData_invariant.
  - apply extractNodeData_readable.
  - intros p cs out -> H. apply extractNodeData_invariant in H.
    inversion H as [|p' cs' o Hc Hn|p' cs' o kids Hc Hn Hk]; subst; exists o.
    + split; [reflexivity|]. unfold has in *. rewrite Hn.
      destruct (lookup "children" o); [discriminate|]. split; [reflexivity|].
      intros _. split; [reflexivity|]. intros Hlen. apply of_Z_exact. lia.
    + split; [reflexivity|]. unfold has in *. rewrite Hc.
      destruct (lookup "childrenCount" o); [discriminate|]. split; [reflexivity|]. discriminate.
  - intros p out -> H. apply extractNodeData_invariant in H.
    inversion H; subst. eexists; split; [reflexivity|]. split; assumption.
Qed.

Lemma extractNodeData_children_witness :
  readable sample_tree = true
  /\ exists out, extractNodeData sample_tree true = Ok out /\ children_invariant sample_tree out.
Proof.
  split; [reflexivity|].
  destruct (extractNodeData_children sample_tree true) as [Hinv [Hread _]].
  destruct (Hread eq_refl) as [out Hout].
  exists out. split; [exact Hout|exact (Hinv out Hout)].
Defined.

Lemma Forall2_nth_error {A B} (R : A -> B -> Prop) (xs : list A) (ys : list B) (i : nat) (x : A) :
  Forall2 R xs ys -> nth_error xs i = Some x -> exists y, nth_error ys i = Some y /\ R x y.
Proof.
  intros H. revert i. induction H as [|x' y' xs' ys' Hxy _ IH]; intros i Hi.
  - destruct i; discriminate.
  - destruct i as [|i]; simpl in *.
    + injection Hi as <-. exists y'. split; [reflexivity|assumption].
    + apply IH, Hi.
Qed.

Lemma extractNodeData_descendant (path : list nat) :
  forall node out d,
    extractNodeData node true = Ok out -> descendant node path = Some d ->
    exists v, record_at out path = Some v /\ extractNodeData d true = Ok v.
Proof.
  induction path as [|i rest IH]; intros node out d Hout Hd.
  - injection Hd as <-. exists out. split; [reflexivity|assumption].
  - destruct node as [p [cs|]|e]; try discriminate.
    simpl in Hd. destruct (nth_error cs i) as [c|] eqn:Hi; [|discriminate].
    rewrite extractNodeData_container in Hout.
    destruct (map_result _ cs) as [kids|e] eqn:Hk; [|discriminate].
    injection Hout as <-.
    apply map_result_Forall2 in Hk.
    destruct (Forall2_nth_error _ _ _ _ _ Hk Hi) as [kid [Hkid Hc]].
    destruct (IH c kid d Hc Hd) as [v [Hv Hdv]].
    exists v. split; [|assumption].
    simpl. rewrite lookup_set_same, Hkid. exact Hv.
Qed.

Lemma extractNodeData_collapsed (node : SceneNode) (out : value) :
  extractNodeData node false = Ok out -> mentions "children" out = false.
Proof.
  destruct node as [p [cs|]|e]; intros H.
  - rewrite extractNodeData_container in H. injection H as <-.
    apply mentions_set; [discriminate|reflexivity|apply extractProps_no_children].
  - simpl in H. injection H as <-. apply extractProps_no_children.
  - discriminate.
Qed.

(** C2. With the flag set, the record holds every descendant: whatever the
    path of child indices, however long, the record reached through the
    [children] arrays along it is there and is the record extracted from
    the descendant at that path with the flag set; the flag goes down
    unchanged.  With the flag clear, no object anywhere in the record has a
    [children] property.  In both cases the record exists when the handles
    read can be read. *)
Theorem extractNodeData_expansion (node : SceneNode) :
  (forall out path d,
      extractNodeData node true = Ok out -> descendant node path = Some d ->
      exists v, record_at out path = Some v /\ extractNodeData d true = Ok v)
  /\ (forall out, extractNodeData node false = Ok out -> mentions "children" out = false)
  /\ (readable node = true -> exists out, extractNodeData node true = Ok out)
  /\ (forall p children, node = Node p children ->
        exists out, extractNodeData node false = Ok out).
Proof.
  split; [|split; [|split]].
  - intros out path d. apply extractNodeData_descendant.
  - apply extractNodeData_collapsed.
  - apply extractNodeData_readable.
  - intros p [cs|] ->.
    + rewrite extractNodeData_container. eexists; reflexivity.
    + eexists; reflexivity.
Qed.

Lemma extractNodeData_expansion_witness :
  descendant sample_tree [0; 0]%nat = Some (Node (bare "Label" "TEXT") None)
  /\ exists out v,
       extractNodeData sample_tree true = Ok out
       /\ record_at out [0; 0]%nat = Some v
       /\ extractNodeData (Node (bare "Label" "TEXT") None) true = Ok v.
Proof.
  split; [reflexivity|].
  destruct (extractNodeData_expansion sample_tree) as [Hdesc [_ [Hread _]]].
  destruct (Hread eq_refl) as [out Hout].
  destruct (Hdesc out [0; 0]%nat _ Hout eq_refl) as [v [Hv Hd]].
  exists out, v. split; [exact Hout|]. split; [exact Hv|exact Hd].
Defined.

(** A frame with a group in it that holds a text: the text is in the record
    at depth two when the flag is set, and counted away when it is not. *)
Example extractNodeData_sample_expanded :
  extractNodeData sample_tree true =
    Ok (VObj [("name", VStr "Card"); ("type", VStr "FRAME");
              ("children",
               VArr [VObj [("name", VStr "Row"); ("type", VStr "GROUP");
                           ("children", VArr [VObj [("name", VStr "Label"); ("type", VStr "TEXT")]])];
                     VObj [("name", VStr "Icon"); ("type", VStr "VECTOR")]])]).
Proof. reflexivity. Qed.

Example extractNodeData_sample_collapsed :
  extractNodeData sample_tree false =
    Ok (VObj [("name", VStr "Card"); ("type", VStr "FRAME"); ("childrenCount", VNum (of_nat 2))]).
Proof. reflexivity. Qed.

(** ** The host's side of the protocol *)

Lemma sendSelectionToUI_posts (selection : list SceneNode) (expandContent : bool) (msg : value) :
  In (PostMessage msg) (sendSelectionToUI selection expandContent) ->
  msg = error_message
  \/ (selection = [] /\ msg = selectionChange VNull)
  \/ (selection <> []
      /\ exists records,
           msg = selectionChange (VArr records)
           /\ Forall2 (fun node record => extractNodeData node expandContent = Ok record)
                selection records).
Proof.
  unfold sendSelectionToUI. destruct selection as [|node rest].
  - intros [[= <-]|[]]. right; left. split; reflexivity.
  - destruct (map_result _ (node :: rest)) as [records|e] eqn:Hm.
    + intros [[= <-]|[]]. right; right. split; [discriminate|].
      exists records. split; [reflexivity|]. apply map_result_Forall2, Hm.
    + intros [H|[[= <-]|[]]]; [discriminate|]. left; reflexivity.
Qed.

Lemma sendSelectionToUI_readable (selection : list SceneNode) (expandContent : bool) :
  Forall (fun node => readable node = true) selection ->
  exists data, sendSelectionToUI selection expandContent = [PostMessage (selectionChange data)].
Proof.
  intros Hr. unfold sendSelectionToUI. destruct selection as [|node rest].
  - eexists; reflexivity.
  - destruct (map_result_total (fun n => extractNodeData n expandContent) (node :: rest))
      as [records ->].
    + eapply Forall_impl; [|exact Hr]. intros n Hn. apply extractNodeData_readable, Hn.
    + eexists; reflexivity.
Qed.

Lemma handle_posts (selection : list SceneNode) (ev : event) (effects : list effect)
    (msg : value) :
  handle selection ev = Ok effects -> In (PostMessage msg) effects ->
  exists flag, In (PostMessage msg) (sendSelectionToUI selection flag).
Proof.
  destruct ev as [| |m]; simpl.
  - intros [= <-] [H|H]; [discriminate|]. exists true; exact H.
  - intros [= <-] H. exists false; exact H.
  - unfold onmessage, bind. destruct (get m "type") as [t|]; [|discriminate].
    destruct (is_str t "toggleExpand").
    + destruct (get m "expandContent") as [e|]; [|discriminate].
      intros [= <-] H. eexists; exact H.
    + destruct (is_str t "notify").
      * destruct (get m "message"); [|discriminate].
        intros [= <-] [H|[]]; discriminate.
      * destruct (is_str t "init"); intros [= <-] H; [exists true; exact H|destruct H].
Qed.

(** C10. Whatever the event, a [selectionChange] the host posts carries
    [null], and then the selection is empty, or an array with one record
    per selected node in the order of the selection, each extracted from its
    node alone, and then the selection is not empty, a selection of one node
    included: the payload is never a record by itself.  Taking the only
    record out of an array of one is done by the surface, in [dataToShow],
    on the way to the serializer. *)
Theorem selectionChange_payload (selection : list SceneNode) (ev : event) :
  (forall effects data,
      handle selection ev = Ok effects -> In (PostMessage (selectionChange data)) effects ->
      (data = VNull /\ selection = [])
      \/ (selection <> []
          /\ exists flag records,
               data = VArr records
               /\ Forall2 (fun node record => extractNodeData node flag = Ok record)
                    selection records))
  /\ (Forall (fun node => readable node = true) selection ->
      forall flag, exists data,
        sendSelectionToUI selection flag = [PostMessage (selectionChange data)])
  /\ (forall node flag record,
        extractNodeData node flag = Ok record ->
        sendSelectionToUI [node] flag = [PostMessage (selectionChange (VArr [record]))]
        /\ dataToShow (VArr [record]) = record)
  /\ dataToShow VNull = VNull
  /\ (forall records, List.length records <> 1%nat -> dataToShow (VArr records) = VArr records).
Proof.
  split; [|split; [|split; [|split]]].
  - intros effects data Hh Hin.
    destruct (handle_posts _ _ _ _ Hh Hin) as [flag Hs].
    destruct (sendSelectionToUI_posts _ _ _ Hs) as [H|[[Hsel H]|[Hsel [records [H HF]]]]].
    + discriminate.
    + injection H as ->. left. split; [reflexivity|assumption].
    + injection H as ->. right. split; [assumption|]. exists flag, records. split; [reflexivity|assumption].
  - intros Hr flag. apply sendSelectionToUI_readable, Hr.
  - intros node flag record H. split; [|reflexivity].
    unfold sendSelectionToUI. simpl. rewrite H. reflexivity.
  - reflexivity.
  - intros [|r [|r' rest]] H; simpl in *; try reflexivity. contradiction.
Qed.

Lemma selectionChange_payload_witness :
  handle [sample_tree] SelectionChange
    = Ok [PostMessage (selectionChange
            (VArr [VObj [("name", VStr "Card"); ("type", VStr "FRAME");
                         ("childrenCount", VNum (of_nat 2))]]))]
  /\ exists flag records,
       VArr [VObj [("name", VStr "Card"); ("type", VStr "FRAME");
                   ("childrenCount", VNum (of_nat 2))]] = VArr records
       /\ Forall2 (fun node record => extractNodeData node flag = Ok record)
            [sample_tree] records.
Proof.
  split; [reflexivity|].
  destruct (selectionChange_payload [sample_tree] SelectionChange) as [H _].
  destruct (H _ _ eq_refl (or_introl eq_refl)) as [[Hnull _]|[_ Hrec]].
  - discriminate Hnull.
  - exact Hrec.
Defined.

(** C7. When the extraction of a selected node throws, [sendSelectionToUI]
    catches it: it logs, posts the one [error] message with its fixed
    description and posts no [selectionChange], so nothing of the trees
    already extracted leaves the host.  The handler of the selection change
    returns normally, and the events that follow in the session are handled
    as they would have been. *)
Theorem sendSelectionToUI_catches (selection : list SceneNode) (expandContent : bool)
    (node : SceneNode) (e : string) :
  In node selection -> extractNodeData node expandContent = Throw e ->
  exists e',
    sendSelectionToUI selection expandContent
      = [ConsoleError "Error sending selection data:" e'; PostMessage error_message]
    /\ (forall data,
          ~ In (PostMessage (selectionChange data)) (sendSelectionToUI selection expandContent))
    /\ (expandContent = false ->
        forall before after,
          run (before ++ (selection, SelectionChange) :: after)%list
          = (run before
               ++ Ok [ConsoleError "Error sending selection data:" e'; PostMessage error_message]
               :: run after)%list).
Proof.
  intros Hin Hthrow.
  destruct (map_result_throws (fun n => extractNodeData n expandContent) selection node e Hin Hthrow)
    as [e' He'].
  exists e'.
  assert (Hs : sendSelectionToUI selection expandContent
               = [ConsoleError "Error sending selection data:" e'; PostMessage error_message]).
  { unfold sendSelectionToUI. destruct selection as [|n rest]; [destruct Hin|].
    rewrite He'. reflexivity. }
  split; [exact Hs|]. split.
  - intros data. rewrite Hs. intros [H|[H|[]]]; discriminate.
  - intros -> before after. unfold run. rewrite map_app. simpl. rewrite Hs. reflexivity.
Qed.

Lemma sendSelectionToUI_catches_witness :
  In (Unreadable "removed") [sample_tree; Unreadable "removed"]
  /\ extractNodeData (Unreadable "removed") false = Throw "removed"
  /\ exists e',
       sendSelectionToUI [sample_tree; Unreadable "removed"] false
       = [ConsoleError "Error sending selection data:" e'; PostMessage error_message].
Proof.
  assert (Hin : In (Unreadable "removed") [sample_tree; Unreadable "removed"]).
  { right; left; reflexivity. }
  split; [exact Hin|]. split; [reflexivity|].
  destruct (sendSelectionToUI_catches [sample_tree; Unreadable "removed"] false
              (Unreadable "removed") "removed" Hin eq_refl) as [e' [Hs _]].
  exists e'. exact Hs.
Defined.

(** C5, as stated, fails: after the surface has asked for expanded content
    the host still answers a change of the selection with collapsed
    records. *)
Lemma selection_change_ignores_preference :
  ~ (forall history selection preference,
        last_preference history = Some preference ->
        handle selection SelectionChange = Ok (sendSelectionToUI selection preference)).
Proof.
  intros H.
  specialize (H [Startup;
                 Message (VObj [("type", VStr "toggleExpand"); ("expandContent", VBool true)])]
                [sample_tree] true eq_refl).
  vm_compute in H. discriminate H.
Qed.

(** C5, amended. A change of the selection is answered with the flag
    [false], whatever the events before it were and whatever preference the
    surface sent last; the flag is [true] when the script starts and on
    [init], and the one of the message on [toggleExpand].  When the selected
    handles can be read, the answer to a change is one [selectionChange]
    with no [children] property anywhere in it. *)
Theorem selection_change_collapsed (before after : list (list SceneNode * event))
    (selection : list SceneNode) :
  run (before ++ (selection, SelectionChange) :: after)%list
    = (run before ++ Ok (sendSelectionToUI selection false) :: run after)%list
  /\ handle selection Startup = Ok (ShowUI :: sendSelectionToUI selection true)
  /\ handle selection (Message (VObj [("type", VStr "init")]))
       = Ok (sendSelectionToUI selection true)
  /\ (forall b,
        handle selection
          (Message (VObj [("type", VStr "toggleExpand"); ("expandContent", VBool b)]))
        = Ok (sendSelectionToUI selection b))
  /\ (Forall (fun node => exists p children, node = Node p children) selection ->
      exists data,
        sendSelectionToUI selection false = [PostMessage (selectionChange data)]
        /\ mentions "children" data = false).
Proof.
  split; [|split; [|split; [|split]]].
  - unfold run. rewrite map_app. reflexivity.
  - reflexivity.
  - reflexivity.
  - intros b. reflexivity.
  - intros Hn. unfold sendSelectionToUI. destruct selection as [|n rest].
    + eexists; split; reflexivity.
    + destruct (map_result_total (fun x => extractNodeData x false) (n :: rest)) as [records Hr].
      * eapply Forall_impl; [|exact Hn]. intros x [p [children ->]].
        destruct children as [cs|]; [rewrite extractNodeData_container|]; eexists; reflexivity.
      * rewrite Hr. eexists; split; [reflexivity|].
        apply map_result_Forall2 in Hr. simpl.
        induction Hr as [|x r xs rs Hx _ IH]; [reflexivity|].
        simpl. rewrite (extractNodeData_collapsed _ _ Hx). simpl. apply IH.
        inversion Hn; assumption.
Qed.

Lemma selection_change_collapsed_witness :
  Forall (fun node => exists p children, node = Node p children) [sample_tree]
  /\ exists data,
       sendSelectionToUI [sample_tree] false = [PostMessage (selectionChange data)]
       /\ mentions "children" data = false.
Proof.
  assert (Hn : Forall (fun node => exists p children, node = Node p children) [sample_tree]).
  { constructor; [|constructor]. eexists; eexists; reflexivity. }
  split; [exact Hn|].
  destruct (selection_change_collapsed [] [] [sample_tree]) as [_ [_ [_ [_ H]]]].
  exact (H Hn).
Defined.

(** ** Messages that do not decode *)

(** C6, as stated, fails on both sides: a [toggleExpand] without its flag
    makes the host post a [selectionChange], and a [selectionChange] without
    its data replaces what the surface shows. *)
Lemma malformed_payload_is_processed :
  ~ ((forall selection msg,
        well_formed_for_host msg = false -> onmessage selection msg = Ok [])
     /\ (forall st message,
           well_formed_for_surface message = false ->
           window_onmessage st (VObj [("pluginMessage", message)]) = Ok st)).
Proof.
  intros [Hhost Hsurface].
  specialize (Hhost [sample_tree] (VObj [("type", VStr "toggleExpand")]) eq_refl).
  vm_compute in Hhost. discriminate Hhost.
Qed.

Example malformed_selectionChange_shown :
  let st := {| selectionData := VArr [VObj [("name", VStr "Card")]]; includeChildren := true |} in
  let message := VObj [("type", VStr "selectionChange")] in
  well_formed_for_surface message = false
  /\ window_onmessage st (VObj [("pluginMessage", message)])
     = Ok {| selectionData := VUndefined; includeChildren := true |}.
Proof. split; reflexivity. Qed.

Lemma is_str_message_type (msg : value) (t : value) (s : string) :
  get msg "type" = Ok t -> is_str t s = true -> message_type msg = Some s.
Proof.
  destruct msg as [| | | | | |o]; simpl; try discriminate;
    try (intros [= <-]; discriminate).
  intros [= <-]. destruct (lookup "type" o) as [[| | | |s'| |]|]; simpl; try discriminate.
  intros H. apply String.eqb_eq in H. subst. reflexivity.
Qed.

(** C6, amended. A message whose [type] is none of those the receiver
    handles is ignored.  The host, given any value other than [null] and
    [undefined] whose type is not [toggleExpand], [notify] or [init],
    returns normally with no effect at all: nothing posted, nothing shown.
    The surface, given any [pluginMessage] whose type is not
    [selectionChange], returns normally with its state as it was. *)
Theorem unrecognized_message_ignored (msg : value) :
  (forall selection,
      msg <> VNull -> msg <> VUndefined ->
      message_type msg <> Some "toggleExpand" ->
      message_type msg <> Some "notify" ->
      message_type msg <> Some "init" ->
      onmessage selection msg = Ok [])
  /\ (forall st data,
        get data "pluginMessage" = Ok msg ->
        message_type msg <> Some "selectionChange" ->
        window_onmessage st data = Ok st).
Proof.
  split.
  - intros selection Hnull Hundef Ht Hn Hi.
    unfold onmessage, bind.
    destruct (get msg "type") as [t|err] eqn:Hget.
    + destruct (is_str t "toggleExpand") eqn:E1;
        [exfalso; apply Ht; eapply is_str_message_type; eassumption|].
      destruct (is_str t "notify") eqn:E2;
        [exfalso; apply Hn; eapply is_str_message_type; eassumption|].
      destruct (is_str t "init") eqn:E3;
        [exfalso; apply Hi; eapply is_str_message_type; eassumption|].
      reflexivity.
    + destruct msg; simpl in Hget; congruence.
  - intros st data Hget Ht.
    unfold window_onmessage, bind. rewrite Hget.
    destruct (truthy msg) eqn:Htr; [|reflexivity].
    destruct (get msg "type") as [t|err] eqn:Hgt.
    + destruct (is_str t "selectionChange") eqn:E; [|reflexivity].
      exfalso; apply Ht; eapply is_str_message_type; eassumption.
    + destruct msg; simpl in Hgt, Htr; congruence.
Qed.

Lemma unrecognized_message_ignored_witness :
  onmessage [sample_tree] (VObj [("type", VStr "error"); ("message", VStr "late")]) = Ok []
  /\ window_onmessage initial
       (VObj [("pluginMessage", VObj [("type", VStr "error"); ("message", VStr "late")])])
     = Ok initial.
Proof.
  destruct (unrecognized_message_ignored (VObj [("type", VStr "error"); ("message", VStr "late")]))
    as [Hhost Hsurface].
  split.
  - apply Hhost; simpl; discriminate.
  - apply Hsurface; [reflexivity|simpl; discriminate].
Defined.

(** ** The three counts of the estimator *)

Lemma split_from_words (s : text) :
  forall in_sep piece,
    (in_sep = true -> piece = []) ->
    List.length (filter (fun word => (0 <? List.length word)%nat) (split_from in_sep piece s))
    = ((if (0 <? List.length piece)%nat then 1 else 0)
       + count_runs (fun c => negb (is_space c)) (0 <? List.length piece)%nat s)%nat.
Proof.
  induction s as [|c rest IH]; intros in_sep piece Hsep; cbn [split_from count_runs].
  - cbn [filter]. destruct (0 <? List.length piece)%nat; reflexivity.
  - destruct (is_space c); cbn [negb].
    + destruct in_sep.
      * rewrite (Hsep eq_refl). rewrite IH by reflexivity. reflexivity.
      * cbn [filter]. destruct (0 <? List.length piece)%nat; cbn [List.length];
          rewrite IH by reflexivity; reflexivity.
    + rewrite IH by discriminate.
      rewrite length_app. cbn [List.length].
      replace (0 <? List.length piece + 1)%nat with true
        by (symmetry; apply Nat.ltb_lt; lia).
      destruct (0 <? List.length piece)%nat; reflexivity.
Qed.

Lemma words_count (s : text) : List.length (words s) = wordCount s.
Proof.
  unfold words, split_spaces, wordCount.
  rewrite split_from_words by discriminate. reflexivity.
Qed.

Lemma match_special_count (s : text) : List.length (match_special s) = specialCharCount s.
Proof. unfold match_special, specialCharCount. apply length_map. Qed.

(** Behind a run of digits the reader is where it was when the run began,
    if it was in the digits of a token. *)
Lemma count_numbers_digits (st : number_state) (s : text) :
  st = InDigits \/ st = InFraction ->
  count_numbers st s = count_numbers st (snd (span_digits s)).
Proof.
  intros Hst. induction s as [|c rest IH]; [reflexivity|].
  simpl. destruct (is_digit c) eqn:Hd.
  - destruct (span_digits rest) as [ds r]. simpl in *.
    destruct Hst as [-> | ->]; exact IH.
  - simpl. rewrite Hd. reflexivity.
Qed.

Lemma span_digits_rest (s : text) :
  match snd (span_digits s) with
  | [] => True
  | c :: _ => is_digit c = false
  end.
Proof.
  induction s as [|c rest IH]; simpl; [exact I|].
  destruct (is_digit c) eqn:Hd.
  - destruct (span_digits rest) as [ds r]. exact IH.
  - simpl. exact Hd.
Qed.

(** Outside a token, a unit that is no digit changes nothing. *)
Lemma count_numbers_skip (st : number_state) (s : text) :
  st <> InDigits ->
  match s with [] => True | c :: _ => is_digit c = false end ->
  count_numbers st s = count_numbers Outside s.
Proof.
  intros Hst. destruct s as [|c rest]; [reflexivity|]. simpl. intros ->.
  destruct (is_dot c); destruct st; try reflexivity; contradiction.
Qed.

Lemma span_digits_cons (c : N) (rest : text) :
  span_digits (c :: rest)
  = if is_digit c then (c :: fst (span_digits rest), snd (span_digits rest))
    else ([], c :: rest).
Proof.
  simpl. destruct (is_digit c); [|reflexivity]. destruct (span_digits rest); reflexivity.
Qed.

(** Digits behind the dot belong to the token that the dot continues. *)
Lemma count_numbers_fraction (s : text) :
  fst (span_digits s) <> [] ->
  count_numbers AfterDot s = count_numbers Outside (snd (span_digits s)).
Proof.
  destruct s as [|d rest]; [intros H; contradiction H; reflexivity|].
  rewrite span_digits_cons. cbn [count_numbers].
  destruct (is_digit d); cbn [fst snd]; [intros _|intros H; contradiction H; reflexivity].
  rewrite (count_numbers_digits InFraction rest) by (right; reflexivity).
  apply count_numbers_skip; [discriminate|apply span_digits_rest].
Qed.

Lemma span_digits_none (s : text) :
  fst (span_digits s) = [] ->
  match s with [] => True | c :: _ => is_digit c = false end.
Proof.
  destruct s as [|c rest]; [intros _; exact I|].
  rewrite span_digits_cons. destruct (is_digit c); [discriminate|reflexivity].
Qed.

Lemma match_number_at_some (s m rest : text) :
  match_number_at s = Some (m, rest) ->
  count_numbers Outside s = S (count_numbers Outside rest).
Proof.
  unfold match_number_at.
  destruct s as [|c0 s0]; [discriminate|].
  rewrite span_digits_cons. cbn [count_numbers].
  destruct (is_digit c0); [|discriminate].
  rewrite (count_numbers_digits InDigits s0) by (left; reflexivity).
  pose proof (span_digits_rest s0) as Hrest.
  destruct (snd (span_digits s0)) as [|c r'].
  - intros [= _ <-]. reflexivity.
  - cbn [count_numbers]. rewrite Hrest.
    destruct (is_dot c) eqn:Hdot.
    + pose proof (count_numbers_fraction r') as Hfrac.
      pose proof (span_digits_none r') as Hnone.
      destruct (span_digits r') as [fs r'']. cbn [fst snd] in Hfrac, Hnone.
      destruct fs as [|f fs'].
      * intros [= _ <-]. cbn [count_numbers]. rewrite Hrest, Hdot.
        f_equal. apply count_numbers_skip; [discriminate|]. apply Hnone. reflexivity.
      * intros [= _ <-]. f_equal. apply Hfrac. discriminate.
    + intros [= _ <-]. cbn [count_numbers]. rewrite Hrest, Hdot. reflexivity.
Qed.

Lemma match_number_at_none (c : N) (rest : text) :
  match_number_at (c :: rest) = None ->
  count_numbers Outside (c :: rest) = count_numbers Outside rest.
Proof.
  unfold match_number_at. rewrite span_digits_cons. cbn [count_numbers].
  destruct (is_digit c).
  - destruct (snd (span_digits rest)) as [|d r']; [discriminate|].
    destruct (is_dot d); [|discriminate].
    destruct (span_digits r') as [[|f fs] r'']; discriminate.
  - intros _. destruct (is_dot c); reflexivity.
Qed.

Lemma match_number_count (s : text) : List.length (match_number s) = numberTokenCount s.
Proof.
  unfold numberTokenCount.
  funelim (match_number s); simp match_number.
  - reflexivity.
  - cbn [List.length].
    match goal with IH : List.length _ = count_numbers _ _ |- _ => rewrite IH end.
    symmetry. eapply match_number_at_some. eassumption.
  - match goal with IH : List.length _ = count_numbers _ _ |- _ => rewrite IH end.
    symmetry. apply match_number_at_none. assumption.
Qed.

Lemma count_runs_le (p : N -> bool) (inside : bool) (s : text) :
  (count_runs p inside s <= List.length s)%nat.
Proof.
  revert inside. induction s as [|c rest IH]; intros inside; cbn [count_runs List.length].
  - lia.
  - destruct (p c).
    + specialize (IH true). destruct inside; lia.
    + specialize (IH false). lia.
Qed.

Lemma count_numbers_le (st : number_state) (s : text) :
  (count_numbers st s <= List.length s)%nat.
Proof.
  revert st. induction s as [|c rest IH]; intros st; cbn [count_numbers List.length].
  - lia.
  - destruct (is_digit c); [|destruct (is_dot c)]; destruct st;
      match goal with |- (S (count_numbers ?st' _) <= _)%nat => specialize (IH st')
                    | |- (count_numbers ?st' _ <= _)%nat => specialize (IH st') end; lia.
Qed.

Lemma specialCharCount_le (s : text) : (specialCharCount s <= List.length s)%nat.
Proof. apply filter_length_le. Qed.

(** C8. [calculateTokens] is zero on the empty text and otherwise
    [Math.max(1, Math.round(wordCount * 1.3 + specialCharCount * 0.3 +
    numberTokenCount * 0.5))], the sum taken in binary64, where the three
    counts are those of the whitespace-delimited runs, of the structural
    characters and of the digit runs with their optional fraction: the
    arrays the code builds with [split], [filter] and [match] have these
    lengths.  On every text that is not empty (and is no longer than a
    JavaScript string can be) the result is an integer, at least 1. *)
Theorem calculateTokens_estimate (s : text) :
  List.length (words s) = wordCount s
  /\ List.length (match_special s) = specialCharCount s
  /\ List.length (match_number s) = numberTokenCount s
  /\ calculateTokens s =
       match s with
       | [] => IInt 0
       | _ :: _ =>
           Math_max_1
             (Math_round
                (add (add (mul (of_nat (wordCount s)) lit_1_3)
                          (mul (of_nat (specialCharCount s)) lit_0_3))
                     (mul (of_nat (numberTokenCount s)) lit_0_5)))
       end
  /\ (s <> [] -> Z.of_nat (List.length s) < 2 ^ 53 ->
      exists k, calculateTokens s = IInt k /\ 1 <= k).
Proof.
  split; [apply words_count|]. split; [apply match_special_count|].
  split; [apply match_number_count|]. split.
  - destruct s as [|c rest]; [reflexivity|].
    unfold calculateTokens. rewrite words_count, match_special_count, match_number_count.
    reflexivity.
  - intros Hne Hlen. destruct s as [|c rest]; [contradiction Hne; reflexivity|].
    unfold calculateTokens.
    pose proof (count_runs_le (fun c => negb (is_space c)) false (c :: rest)) as Hw.
    pose proof (specialCharCount_le (c :: rest)) as Hs.
    pose proof (count_numbers_le Outside (c :: rest)) as Hn.
    rewrite words_count, match_special_count, match_number_count.
    fold (wordCount (c :: rest)) in Hw. fold (numberTokenCount (c :: rest)) in Hn.
    destruct (weighted_sum_integral (wordCount (c :: rest)) (specialCharCount (c :: rest))
                (numberTokenCount (c :: rest))) as [k [Hk Hk0]]; try lia.
    rewrite Hk. exists (Z.max 1 k). split; [reflexivity|lia].
Qed.

Lemma calculateTokens_estimate_witness :
  sample_json <> []
  /\ Z.of_nat (List.length sample_json) < 2 ^ 53
  /\ exists k, calculateTokens sample_json = IInt k /\ 1 <= k.
Proof.
  assert (Hne : sample_json <> []) by discriminate.
  assert (Hlen : Z.of_nat (List.length sample_json) < 2 ^ 53) by reflexivity.
  split; [exact Hne|]. split; [exact Hlen|].
  destruct (calculateTokens_estimate sample_json) as [_ [_ [_ [_ H]]]].
  exact (H Hne Hlen).
Defined.

Example calculateTokens_letter : calculateTokens [97%N] = IInt 1.
Proof. vm_compute. reflexivity. Qed.

(** C9, as stated, fails: the text has five structural characters, not
    four. *)
Lemma sample_json_counts_not_1_4_1 :
  ~ (List.length (words sample_json) = 1%nat
     /\ List.length (match_special sample_json) = 4%nat
     /\ List.length (match_number sample_json) = 1%nat
     /\ calculateTokens sample_json = IInt 3).
Proof. intros [_ [H _]]. vm_compute in H. discriminate H. Qed.

(** C9, amended. On the seven units of the sample the code counts one
    word, five structural characters (the two braces, the two quotes and
    the colon) and one number, and returns [Math.round(1 * 1.3 + 5 * 0.3 +
    1 * 0.5)], which is 3. *)
Theorem calculateTokens_sample_json :
  List.length (words sample_json) = 1%nat
  /\ List.length (match_special sample_json) = 5%nat
  /\ List.length (match_number sample_json) = 1%nat
  /\ wordCount sample_json = 1%nat
  /\ specialCharCount sample_json = 5%nat
  /\ numberTokenCount sample_json = 1%nat
  /\ Math_round (add (add (mul (of_nat 1) lit_1_3) (mul (of_nat 5) lit_0_3))
                     (mul (of_nat 1) lit_0_5)) = IInt 3
  /\ calculateTokens sample_json = IInt 3.
Proof. vm_compute. repeat split; reflexivity. Qed.

(* ===================================================================== *)
(** * Further properties of the host and the surface *)
(* ===================================================================== *)

(** ** The fields of a record *)

Lemma lookup_copy_prop_same {A} (k : string) (inj : A -> value) (p : option A) (o : object) :
  lookup k o = None -> lookup k (copy_prop k inj p o) = option_map inj p.
Proof.
  intros H. destruct p; simpl; [apply lookup_set_same|exact H].
Qed.

Lemma lookup_copy_plain_same {A} (k : string) (inj : A -> value) (p : option (or_mixed A))
    (o : object) :
  lookup k o = None -> lookup k (copy_plain k inj p o) = option_map inj (plain p).
Proof.
  intros H. destruct p as [[a|]|]; simpl; [apply lookup_set_same|exact H..].
Qed.

Ltac skip_other_keys :=
  repeat (first [rewrite lookup_copy_plain by discriminate
                |rewrite lookup_copy_prop by discriminate]).

Ltac read_key :=
  skip_other_keys;
  first [rewrite lookup_copy_plain_same; [reflexivity|skip_other_keys; reflexivity]
        |rewrite lookup_copy_prop_same; [reflexivity|skip_other_keys; reflexivity]
        |reflexivity].

Lemma extractProps_fields (p : NodeProps) :
  let o := extractProps p in
  lookup "name" o = Some (VStr (node_name p))
  /\ lookup "type" o = Some (VStr (node_type p))
  /\ lookup "width" o = option_map VNum (node_width p)
  /\ lookup "height" o = option_map VNum (node_height p)
  /\ lookup "layoutMode" o = option_map VStr (node_layoutMode p)
  /\ lookup "primaryAxisSizingMode" o = option_map VStr (node_primaryAxisSizingMode p)
  /\ lookup "counterAxisSizingMode" o = option_map VStr (node_counterAxisSizingMode p)
  /\ lookup "primaryAxisAlignItems" o = option_map VStr (node_primaryAxisAlignItems p)
  /\ lookup "counterAxisAlignItems" o = option_map VStr (node_counterAxisAlignItems p)
  /\ lookup "fills" o = option_map (fun ps => VArr (extractPaints ps)) (plain (node_fills p))
  /\ lookup "strokes" o = option_map (fun ps => VArr (extractPaints ps)) (plain (node_strokes p))
  /\ lookup "strokeWeight" o = option_map VNum (plain (node_strokeWeight p))
  /\ lookup "strokeAlign" o = option_map VStr (plain (node_strokeAlign p))
  /\ lookup "strokeCap" o = option_map VStr (plain (node_strokeCap p))
  /\ lookup "strokeJoin" o = option_map VStr (plain (node_strokeJoin p)).
Proof.
  cbv zeta. unfold extractProps. repeat split; read_key.
Qed.

(** X1. The record of a readable node holds [name] and [type] always, and
    each optional property exactly when the node has it ([fills],
    [strokes], [strokeWeight], [strokeAlign], [strokeCap] and [strokeJoin]
    only when the value is not [figma.mixed]), with the node's own value
    (the paints normalized): nothing is renamed, defaulted or dropped, with
    the flag set or clear. *)
Theorem extractNodeData_fields (p : NodeProps) (children : option (list SceneNode))
    (expandContent : bool) (out : value) :
  extractNodeData (Node p children) expandContent = Ok out ->
  exists o, out = VObj o
  /\ lookup "name" o = Some (VStr (node_name p))
  /\ lookup "type" o = Some (VStr (node_type p))
  /\ lookup "width" o = option_map VNum (node_width p)
  /\ lookup "height" o = option_map VNum (node_height p)
  /\ lookup "layoutMode" o = option_map VStr (node_layoutMode p)
  /\ lookup "primaryAxisSizingMode" o = option_map VStr (node_primaryAxisSizingMode p)
  /\ lookup "counterAxisSizingMode" o = option_map VStr (node_counterAxisSizingMode p)
  /\ lookup "primaryAxisAlignItems" o = option_map VStr (node_primaryAxisAlignItems p)
  /\ lookup "counterAxisAlignItems" o = option_map VStr (node_counterAxisAlignItems p)
  /\ lookup "fills" o = option_map (fun ps => VArr (extractPaints ps)) (plain (node_fills p))
  /\ lookup "strokes" o = option_map (fun ps => VArr (extractPaints ps)) (plain (node_strokes p))
  /\ lookup "strokeWeight" o = option_map VNum (plain (node_strokeWeight p))
  /\ lookup "strokeAlign" o = option_map VStr (plain (node_strokeAlign p))
  /\ lookup "strokeCap" o = option_map VStr (plain (node_strokeCap p))
  /\ lookup "strokeJoin" o = option_map VStr (plain (node_strokeJoin p)).
Proof.
  intros H.
  assert (Ho : exists o, out = VObj o
             /\ forall k, k <> "children" -> k <> "childrenCount" ->
                  lookup k o = lookup k (extractProps p)).
  { destruct children as [cs|].
    - rewrite extractNodeData_container in H. destruct expandContent.
      + destruct (map_result _ cs) as [kids|e]; [|discriminate]. injection H as <-.
        eexists. split; [reflexivity|]. intros k Hc _. apply lookup_set_other, Hc.
      + injection H as <-.
        eexists. split; [reflexivity|]. intros k _ Hn. apply lookup_set_other, Hn.
    - simpl in H. injection H as <-. eexists. split; [reflexivity|]. reflexivity. }
  destruct Ho as [o [-> Hk]]. exists o. split; [reflexivity|].
  pose proof (extractProps_fields p) as F. cbv zeta in F.
  repeat (rewrite Hk by discriminate). exact F.
Qed.

Lemma extractNodeData_fields_witness :
  extractNodeData
    (Node (mkProps "Box" "RECTANGLE" (Some lit_255) None None None None None None
             (Some Mixed) None (Some (Plain lit_1)) None None None) None) false
  = Ok (VObj [("name", VStr "Box"); ("type", VStr "RECTANGLE"); ("width", VNum lit_255);
              ("strokeWeight", VNum lit_1)])
  /\ exists o,
       VObj [("name", VStr "Box"); ("type", VStr "RECTANGLE"); ("width", VNum lit_255);
             ("strokeWeight", VNum lit_1)] = VObj o
       /\ lookup "fills" o = None /\ lookup "height" o = None
       /\ lookup "width" o = Some (VNum lit_255).
Proof.
  split; [reflexivity|].
  destruct (extractNodeData_fields
              (mkProps "Box" "RECTANGLE" (Some lit_255) None None None None None None
                 (Some Mixed) None (Some (Plain lit_1)) None None None) None false _ eq_refl)
    as [o [Ho [_ [_ [Hw [Hh [_ [_ [_ [_ [_ [Hf _]]]]]]]]]]]].
  exists o. split; [exact Ho|]. split; [exact Hf|]. split; [exact Hh|exact Hw].
Defined.

Lemma keys_set_new (k : string) (v : value) (o : object) :
  ~ In k (keys o) -> keys (set k v o) = (keys o ++ [k])%list.
Proof.
  induction o as [|[k' v'] rest IH]; simpl; intros Hn; [reflexivity|].
  destruct (String.eqb_spec k k') as [->|Hne]; [exfalso; apply Hn; left; reflexivity|].
  simpl. f_equal. apply IH. intros Hin. apply Hn. right. exact Hin.
Qed.

Lemma subsequence_incl {A} (l l' : list A) : subsequence l l' -> incl l l'.
Proof.
  induction 1 as [|x l l' _ IH|x l l' _ IH]; intros y Hy.
  - destruct Hy.
  - right. apply IH, Hy.
  - destruct Hy as [->|Hy]; [left; reflexivity|right; apply IH, Hy].
Qed.

Lemma subsequence_app_skip {A} (l l' : list A) (x : A) :
  subsequence l l' -> subsequence l (l' ++ [x]).
Proof.
  induction 1; simpl; repeat constructor; assumption.
Qed.

Lemma subsequence_app_take {A} (l l' : list A) (x : A) :
  subsequence l l' -> subsequence (l ++ [x]) (l' ++ [x]).
Proof.
  induction 1; simpl; repeat constructor; assumption.
Qed.

Lemma subsequence_NoDup {A} (l l' : list A) : subsequence l l' -> NoDup l' -> NoDup l.
Proof.
  induction 1 as [|x l l' Hs IH|x l l' Hs IH]; intros Hnd.
  - constructor.
  - inversion Hnd; subst. auto.
  - inversion Hnd; subst. constructor; [|auto].
    intros Hin. apply (subsequence_incl _ _ Hs) in Hin. contradiction.
Qed.

Lemma subsequence_set (k : string) (v : value) (o : object) (L : list string) :
  subsequence (keys o) L -> ~ In k L -> subsequence (keys (set k v o)) (L ++ [k]).
Proof.
  intros Hs Hn. rewrite keys_set_new.
  - apply subsequence_app_take, Hs.
  - intros Hin. apply Hn. apply (subsequence_incl _ _ Hs), Hin.
Qed.

Lemma subsequence_copy_prop {A} (k : string) (inj : A -> value) (p : option A) (o : object)
    (L : list string) :
  subsequence (keys o) L -> ~ In k L -> subsequence (keys (copy_prop k inj p o)) (L ++ [k]).
Proof.
  intros Hs Hn. destruct p; simpl; [apply subsequence_set; assumption|].
  apply subsequence_app_skip, Hs.
Qed.

Lemma subsequence_copy_plain {A} (k : string) (inj : A -> value) (p : option (or_mixed A))
    (o : object) (L : list string) :
  subsequence (keys o) L -> ~ In k L -> subsequence (keys (copy_plain k inj p o)) (L ++ [k]).
Proof.
  intros Hs Hn. destruct p as [[a|]|]; simpl;
    [apply subsequence_set; assumption|apply subsequence_app_skip, Hs..].
Qed.

Ltac not_among := simpl; intuition discriminate.

Ltac next_key n k :=
  change (firstn (S n) canonical_keys) with (firstn n canonical_keys ++ [k])%list;
  first [apply subsequence_copy_plain | apply subsequence_copy_prop]; [|not_among].

Lemma extractProps_keys (p : NodeProps) :
  subsequence (keys (extractProps p)) (firstn 15 canonical_keys).
Proof.
  unfold extractProps.
  next_key 14%nat "strokeJoin". next_key 13%nat "strokeCap". next_key 12%nat "strokeAlign".
  next_key 11%nat "strokeWeight". next_key 10%nat "strokes". next_key 9%nat "fills".
  next_key 8%nat "counterAxisAlignItems". next_key 7%nat "primaryAxisAlignItems".
  next_key 6%nat "counterAxisSizingMode". next_key 5%nat "primaryAxisSizingMode".
  next_key 4%nat "layoutMode". next_key 3%nat "height". next_key 2%nat "width".
  apply subsequence_take, subsequence_take, subsequence_nil.
Qed.

Lemma canonical_keys_NoDup : NoDup canonical_keys.
Proof. unfold canonical_keys. repeat (constructor; [not_among|]). constructor. Qed.

(** X2. The property names of a record come in the order in which
    [extractNodeData] writes them (name, type, width, ..., strokeJoin, then
    children or childrenCount), each at most once: the serialized JSON
    lists the fields in that fixed order. *)
Theorem extractNodeData_key_order (p : NodeProps) (children : option (list SceneNode))
    (expandContent : bool) (out : value) :
  extractNodeData (Node p children) expandContent = Ok out ->
  exists o, out = VObj o /\ subsequence (keys o) canonical_keys /\ NoDup (keys o).
Proof.
  intros H.
  assert (Hs : exists o, out = VObj o /\ subsequence (keys o) canonical_keys).
  { pose proof (extractProps_keys p) as Hp.
    destruct children as [cs|].
    - rewrite extractNodeData_container in H. destruct expandContent.
      + destruct (map_result _ cs) as [kids|e]; [|discriminate]. injection H as <-.
        eexists. split; [reflexivity|].
        change canonical_keys
          with ((firstn 15 canonical_keys ++ ["children"]) ++ ["childrenCount"])%list.
        apply subsequence_app_skip, subsequence_set; [exact Hp|not_among].
      + injection H as <-. eexists. split; [reflexivity|].
        change canonical_keys
          with ((firstn 15 canonical_keys ++ ["children"]) ++ ["childrenCount"])%list.
        apply subsequence_set; [apply subsequence_app_skip, Hp|not_among].
    - simpl in H. injection H as <-. eexists. split; [reflexivity|].
      change canonical_keys
        with ((firstn 15 canonical_keys ++ ["children"]) ++ ["childrenCount"])%list.
      apply subsequence_app_skip, subsequence_app_skip, Hp. }
  destruct Hs as [o [-> Hs]]. exists o. split; [reflexivity|]. split; [exact Hs|].
  eapply subsequence_NoDup; [exact Hs|apply canonical_keys_NoDup].
Qed.

Lemma first_error_container (p : NodeProps) (cs : list SceneNode) :
  first_error (Node p (Some cs))
  = fold_right (fun c later => match first_error c with Some e => Some e | None => later end)
      None cs.
Proof.
  simpl. induction cs as [|c rest IH]; [reflexivity|].
  simpl. destruct (first_error c); [reflexivity|exact IH].
Qed.

Lemma extractNodeData_first_error (node : SceneNode) :
  match first_error node with
  | Some e => extractNodeData node true = Throw e
  | None => exists out, extractNodeData node true = Ok out
  end.
Proof.
  induction node as [e|p|p cs IH] using SceneNode_children_ind.
  - reflexivity.
  - eexists; reflexivity.
  - rewrite first_error_container, extractNodeData_container.
    assert (H : match fold_right (fun c later =>
                        match first_error c with Some e => Some e | None => later end) None cs with
                | Some e => map_result (fun child => extractNodeData child true) cs = Throw e
                | None => exists kids, map_result (fun child => extractNodeData child true) cs = Ok kids
                end).
    { induction IH as [|c rest Hc _ IHrest]; simpl.
      - eexists; reflexivity.
      - destruct (first_error c) as [e|].
        + rewrite Hc. reflexivity.
        + destruct Hc as [out ->].
          destruct (fold_right _ None rest) as [e|].
          * rewrite IHrest. reflexivity.
          * destruct IHrest as [kids ->]. eexists; reflexivity. }
    destruct (fold_right _ None cs) as [e|].
    + rewrite H. reflexivity.
    + destruct H as [kids ->]. eexists; reflexivity.
Qed.

Lemma first_error_readable (node : SceneNode) :
  first_error node = None <-> readable node = true.
Proof.
  induction node as [e|p|p cs IH] using SceneNode_children_ind.
  - simpl. split; discriminate.
  - simpl. split; reflexivity.
  - rewrite first_error_container. simpl readable.
    induction IH as [|c rest Hc _ IHrest]; simpl; [split; reflexivity|].
    destruct (first_error c) as [e|].
    + split; [discriminate|]. intros H. apply andb_prop in H. destruct H as [H _].
      apply Hc in H. discriminate.
    + rewrite (proj1 Hc eq_refl). simpl. exact IHrest.
Qed.

(** X3. With the flag set [extractNodeData] throws exactly when some node
    of the subtree cannot be read, and then the error of the first such
    node in document order; it returns exactly when the whole subtree is
    readable.  With the flag clear it throws only when the node itself
    cannot be read: the children are not visited. *)
Theorem extractNodeData_failure (node : SceneNode) :
  (forall e, extractNodeData node true = Throw e <-> first_error node = Some e)
  /\ ((exists out, extractNodeData node true = Ok out) <-> readable node = true)
  /\ (forall e, extractNodeData node false = Throw e <-> node = Unreadable e).
Proof.
  pose proof (extractNodeData_first_error node) as H.
  split; [|split].
  - intros e. destruct (first_error node) as [e'|].
    + rewrite H. split; intros [= ->]; reflexivity.
    + destruct H as [out ->]. split; discriminate.
  - rewrite <- first_error_readable. destruct (first_error node) as [e'|].
    + rewrite H. split; [intros [out Ho]; discriminate|discriminate].
    + split; [reflexivity|intros _; exact H].
  - intros e. destruct node as [p [cs|]|e'].
    + rewrite extractNodeData_container. split; discriminate.
    + simpl. split; discriminate.
    + simpl. split; intros [= ->]; reflexivity.
Qed.

Lemma extractNodeData_key_order_witness :
  extractNodeData sample_tree false
  = Ok (VObj [("name", VStr "Card"); ("type", VStr "FRAME"); ("childrenCount", VNum (of_nat 2))])
  /\ exists o,
       VObj [("name", VStr "Card"); ("type", VStr "FRAME"); ("childrenCount", VNum (of_nat 2))]
       = VObj o
       /\ subsequence (keys o) canonical_keys /\ NoDup (keys o).
Proof.
  split; [reflexivity|].
  exact (extractNodeData_key_order (bare "Card" "FRAME") _ false _
           (eq_refl : extractNodeData sample_tree false = Ok _)).
Defined.

Lemma Forall2_nth_error_r {A B} (R : A -> B -> Prop) (xs : list A) (ys : list B) (i : nat)
    (y : B) :
  Forall2 R xs ys -> nth_error ys i = Some y -> exists x, nth_error xs i = Some x /\ R x y.
Proof.
  intros H. revert i. induction H as [|x' y' xs' ys' Hxy _ IH]; intros i Hi.
  - destruct i; discriminate.
  - destruct i as [|i]; simpl in *.
    + injection Hi as <-. exists x'. split; [reflexivity|assumption].
    + apply IH, Hi.
Qed.

Lemma extractNodeData_record_source (path : list nat) :
  forall node out v,
    extractNodeData node true = Ok out -> record_at out path = Some v ->
    exists d, descendant node path = Some d /\ extractNodeData d true = Ok v.
Proof.
  induction path as [|i rest IH]; intros node out v Hout Hv.
  - injection Hv as <-. exists node. split; [reflexivity|assumption].
  - destruct node as [p [cs|]|e]; [| |discriminate].
    + rewrite extractNodeData_container in Hout.
      destruct (map_result _ cs) as [kids|e] eqn:Hk; [|discriminate].
      injection Hout as <-. simpl in Hv. rewrite lookup_set_same in Hv.
      destruct (nth_error kids i) as [kid|] eqn:Hi; [|discriminate].
      apply map_result_Forall2 in Hk.
      destruct (Forall2_nth_error_r _ _ _ _ _ Hk Hi) as [c [Hc Hck]].
      destruct (IH c kid v Hck Hv) as [d [Hd Hdv]].
      exists d. split; [|assumption]. simpl. rewrite Hc. exact Hd.
    + simpl in Hout. injection Hout as <-. simpl in Hv.
      destruct (extractProps_lookup_children p) as [Hc _]. rewrite Hc in Hv. discriminate.
Qed.

(** X4. The expanded record and the node tree have the same shape: a path
    of child indices leads to a record exactly when it leads to a
    descendant, and that record is the extraction of that descendant.  The
    record holds no child that the tree lacks, and lacks none it holds. *)
Theorem extractNodeData_paths (node : SceneNode) (out : value) :
  extractNodeData node true = Ok out ->
  forall path,
    (forall v, record_at out path = Some v ->
       exists d, descendant node path = Some d /\ extractNodeData d true = Ok v)
    /\ (forall d, descendant node path = Some d ->
          exists v, record_at out path = Some v /\ extractNodeData d true = Ok v)
    /\ (record_at out path = None <-> descendant node path = None).
Proof.
  intros Hout path.
  assert (Hback := extractNodeData_record_source path node out).
  assert (Hforth := extractNodeData_descendant path node out).
  split; [intros v; apply Hback, Hout|]. split; [intros d; apply Hforth, Hout|].
  split; intros H.
  - destruct (descendant node path) as [d|] eqn:Hd; [|reflexivity].
    destruct (Hforth d Hout eq_refl) as [v [Hv _]]. congruence.
  - destruct (record_at out path) as [v|] eqn:Hv; [|reflexivity].
    destruct (Hback v Hout eq_refl) as [d [Hd _]]. congruence.
Qed.

Lemma extractNodeData_paths_witness :
  exists out,
    extractNodeData sample_tree true = Ok out
    /\ record_at out [1; 0]%nat = None
    /\ descendant sample_tree [1; 0]%nat = None.
Proof.
  eexists. split; [reflexivity|].
  split; [|reflexivity].
  apply (extractNodeData_paths sample_tree _ eq_refl [1; 0]%nat). reflexivity.
Defined.

Lemma remove_key_absent (k : string) (o : object) :
  lookup k o = None -> remove_key k o = o.
Proof.
  induction o as [|[k' v] rest IH]; simpl; [reflexivity|].
  destruct (String.eqb k k'); [discriminate|]. intros H. rewrite IH by exact H. reflexivity.
Qed.

Lemma remove_key_set (k : string) (v : value) (o : object) :
  lookup k o = None -> remove_key k (set k v o) = o.
Proof.
  induction o as [|[k' v'] rest IH]; simpl.
  - rewrite String.eqb_refl. reflexivity.
  - destruct (String.eqb k k') eqn:E; [discriminate|]. intros H.
    simpl. rewrite E, IH by exact H. reflexivity.
Qed.

(** X5. For a container the two modes agree but for the children: the
    [childrenCount] of the collapsed record is the length of the
    [children] array of the expanded one (the number of the node's
    children), and without those two properties the records are equal,
    order included. *)
Theorem extractNodeData_collapsed_of_expanded (p : NodeProps) (cs : list SceneNode)
    (expanded : value) :
  extractNodeData (Node p (Some cs)) true = Ok expanded ->
  exists o kids c,
    expanded = VObj o
    /\ lookup "children" o = Some (VArr kids)
    /\ List.length kids = List.length cs
    /\ extractNodeData (Node p (Some cs)) false = Ok (VObj c)
    /\ lookup "childrenCount" c = Some (VNum (of_nat (List.length kids)))
    /\ remove_key "children" o = remove_key "childrenCount" c.
Proof.
  rewrite !extractNodeData_container.
  destruct (map_result _ cs) as [kids|e] eqn:Hk; [|discriminate].
  intros [= <-]. apply map_result_Forall2, Forall2_length in Hk.
  destruct (extractProps_lookup_children p) as [Hc Hn].
  eexists; exists kids; eexists. split; [reflexivity|].
  split; [apply lookup_set_same|]. split; [symmetry; exact Hk|].
  split; [reflexivity|]. split; [rewrite <- Hk; apply lookup_set_same|].
  rewrite !remove_key_set by assumption. reflexivity.
Qed.

Lemma extractNodeData_collapsed_of_expanded_witness :
  exists expanded o kids c,
    extractNodeData sample_tree true = Ok expanded
    /\ expanded = VObj o
    /\ lookup "children" o = Some (VArr kids)
    /\ List.length kids = 2%nat
    /\ extractNodeData sample_tree false = Ok (VObj c)
    /\ lookup "childrenCount" c = Some (VNum (of_nat (List.length kids))).
Proof.
  destruct (extractNodeData_collapsed_of_expanded (bare "Card" "FRAME") _ _
              (eq_refl : extractNodeData sample_tree true = Ok _))
    as [o [kids [c [Ho [Hk [Hl [Hc [Hn _]]]]]]]].
  eexists; exists o, kids, c. split; [reflexivity|].
  split; [exact Ho|]. split; [exact Hk|]. split; [exact Hl|]. split; [exact Hc|exact Hn].
Defined.

(** ** The messages of the host *)

Lemma map_result_thrown {A B} (f : A -> result B) (xs : list A) (e : string) :
  map_result f xs = Throw e -> exists x, In x xs /\ f x = Throw e.
Proof.
  induction xs as [|x rest IH]; simpl; [discriminate|].
  destruct (f x) as [y|e'] eqn:Hx.
  - destruct (map_result f rest) as [ys|e'']; [discriminate|].
    intros [= ->]. destruct (IH eq_refl) as [x' [Hin Hx']].
    exists x'. split; [right; exact Hin|exact Hx'].
  - intros [= ->]. exists x. split; [left; reflexivity|exact Hx].
Qed.

Lemma sendSelectionToUI_posts_one (selection : list SceneNode) (expandContent : bool) :
  exists msg, posts (sendSelectionToUI selection expandContent) = [msg].
Proof.
  unfold sendSelectionToUI. destruct selection as [|n rest]; [eexists; reflexivity|].
  destruct (map_result _ (n :: rest)); eexists; reflexivity.
Qed.

(** X6. Every run of [sendSelectionToUI] posts exactly one message: a
    [selectionChange] or the fixed [error], and the [error] exactly when the
    extraction of some selected node throws. *)
Theorem sendSelectionToUI_one_post (selection : list SceneNode) (expandContent : bool) :
  exists msg,
    posts (sendSelectionToUI selection expandContent) = [msg]
    /\ (msg = error_message \/ exists data, msg = selectionChange data)
    /\ (msg = error_message <->
        exists node e, In node selection /\ extractNodeData node expandContent = Throw e).
Proof.
  unfold sendSelectionToUI. destruct selection as [|n rest].
  - eexists. split; [reflexivity|]. split; [right; eexists; reflexivity|].
    split; [discriminate|]. intros [node [e [[] _]]].
  - destruct (map_result _ (n :: rest)) as [records|e] eqn:Hm.
    + eexists. split; [reflexivity|]. split; [right; eexists; reflexivity|].
      split; [discriminate|]. intros [node [e [Hin He]]].
      destruct (map_result_throws (fun x => extractNodeData x expandContent) _ _ _ Hin He)
        as [e' He']. congruence.
    + eexists. split; [reflexivity|]. split; [left; reflexivity|].
      split; [intros _|reflexivity].
      destruct (map_result_thrown _ _ _ Hm) as [x [Hin Hx]]. exists x, e. split; assumption.
Qed.

Lemma message_type_is_str (msg : value) (t : value) (s : string) :
  get msg "type" = Ok t -> message_type msg = Some s -> is_str t s = true.
Proof.
  destruct msg as [| | | | | |o]; simpl; try discriminate.
  intros [= <-]. destruct (lookup "type" o) as [[| | | |s'| |]|]; try discriminate.
  intros [= ->]. apply String.eqb_refl.
Qed.

(** X7. A turn of the host that returns posts at most one message to the
    surface, and none exactly when the event is an inbound message whose
    type is neither [toggleExpand] nor [init] ([notify] and the unhandled
    types are never answered). *)
Theorem handle_posts_at_most_one (selection : list SceneNode) (ev : event)
    (effects : list effect) :
  handle selection ev = Ok effects ->
  (List.length (posts effects) <= 1)%nat
  /\ (posts effects = [] <->
      exists msg, ev = Message msg
        /\ message_type msg <> Some "toggleExpand" /\ message_type msg <> Some "init").
Proof.
  destruct ev as [| |msg]; simpl.
  - intros [= <-]. destruct (sendSelectionToUI_posts_one selection true) as [m Hm].
    simpl. rewrite Hm. split; [simpl; lia|]. split; [discriminate|]. intros [x [H _]]; discriminate.
  - intros [= <-]. destruct (sendSelectionToUI_posts_one selection false) as [m Hm].
    rewrite Hm. split; [simpl; lia|]. split; [discriminate|]. intros [x [H _]]; discriminate.
  - unfold onmessage, bind. destruct (get msg "type") as [t|] eqn:Ht; [|discriminate].
    destruct (is_str t "toggleExpand") eqn:E1.
    + destruct (get msg "expandContent") as [x|]; [|discriminate]. intros [= <-].
      destruct (sendSelectionToUI_posts_one selection (expand_flag x)) as [m Hm].
      rewrite Hm. split; [simpl; lia|]. split; [discriminate|].
      intros [msg' [[= <-] [Hn _]]]. exfalso. apply Hn. eapply is_str_message_type; eassumption.
    + destruct (is_str t "notify") eqn:E2.
      * destruct (get msg "message") as [x|]; [|discriminate]. intros [= <-].
        split; [simpl; lia|]. split; [intros _|reflexivity].
        pose proof (is_str_message_type _ _ _ Ht E2) as Hty.
        exists msg. split; [reflexivity|]. rewrite Hty. split; discriminate.
      * destruct (is_str t "init") eqn:E3; intros [= <-].
        -- destruct (sendSelectionToUI_posts_one selection true) as [m Hm].
           rewrite Hm. split; [simpl; lia|]. split; [discriminate|].
           intros [msg' [[= <-] [_ Hn]]]. exfalso. apply Hn. eapply is_str_message_type; eassumption.
        -- split; [simpl; lia|]. split; [intros _|reflexivity].
           exists msg. split; [reflexivity|].
           split; intros Hty.
           ++ rewrite (message_type_is_str _ _ _ Ht Hty) in E1. discriminate.
           ++ rewrite (message_type_is_str _ _ _ Ht Hty) in E3. discriminate.
Qed.

Lemma handle_posts_at_most_one_witness :
  handle [sample_tree] (Message (VObj [("type", VStr "notify"); ("message", VStr "Copied")]))
  = Ok [Notify (VStr "Copied")]
  /\ (List.length (posts [Notify (VStr "Copied")]) <= 1)%nat.
Proof.
  split; [reflexivity|].
  exact (proj1 (handle_posts_at_most_one [sample_tree]
                  (Message (VObj [("type", VStr "notify"); ("message", VStr "Copied")]))
                  _ eq_refl)).
Defined.

(** X8. [figma.ui.onmessage] throws exactly on the messages [null] and
    [undefined] (reading [msg.type]), and then a [TypeError]; a [notify]
    shows [msg.message] as it is, whatever the selection, and posts
    nothing. *)
Theorem onmessage_throws (selection : list SceneNode) (msg : value) :
  ((exists e, onmessage selection msg = Throw e) <-> msg = VNull \/ msg = VUndefined)
  /\ (forall e, onmessage selection msg = Throw e -> e = "TypeError")
  /\ (message_type msg = Some "notify" ->
      exists m, get msg "message" = Ok m
        /\ forall selection', onmessage selection' msg = Ok [Notify m]).
Proof.
  split; [|split].
  - split.
    + intros [e He]. destruct msg; try (right; reflexivity); try (left; reflexivity); exfalso;
        unfold onmessage, bind in He; simpl in He;
        repeat match type of He with
               | (if ?c then _ else _) = _ => destruct c
               end; discriminate.
    + intros [-> | ->]; eexists; reflexivity.
  - intros e He. destruct msg; unfold onmessage, bind in He; simpl in He;
      try (injection He as <-; reflexivity);
      repeat match type of He with
             | (if ?c then _ else _) = _ => destruct c
             end; discriminate.
  - intros Hty. destruct msg as [| | | | | |o]; try discriminate.
    eexists. split; [reflexivity|]. intros selection'.
    unfold onmessage, bind. simpl get.
    simpl in Hty. destruct (lookup "type" o) as [[| | | |s'| |]|]; try discriminate.
    injection Hty as ->. reflexivity.
Qed.

Lemma window_onmessage_selectionChange (st : state) (data : value) :
  window_onmessage st (envelope (selectionChange data)) = Ok (setSelectionData data st).
Proof. reflexivity. Qed.

Lemma window_onmessage_error (st : state) :
  window_onmessage st (envelope error_message) = Ok st.
Proof. reflexivity. Qed.

(** X9. What the host posts, the surface takes in without throwing and
    without touching its [includeChildren]: for the empty selection the
    data is [null] (falsy: the placeholder is shown); for one readable node
    the value shown is that node's record itself, not an array; for two or
    more it is the array of records, one per node; when a node cannot be
    read the surface's state stays as it was. *)
Theorem host_to_surface (selection : list SceneNode) (expandContent : bool) (st : state) :
  exists st',
    deliver st (posts (sendSelectionToUI selection expandContent)) = Ok st'
    /\ includeChildren st' = includeChildren st
    /\ (selection = [] -> selectionData st' = VNull /\ truthy (selectionData st') = false)
    /\ (forall node record,
          selection = [node] -> extractNodeData node expandContent = Ok record ->
          dataToShow (selectionData st') = record)
    /\ (forall records,
          map_result (fun node => extractNodeData node expandContent) selection = Ok records ->
          (2 <= List.length selection)%nat ->
          dataToShow (selectionData st') = VArr records
          /\ List.length records = List.length selection)
    /\ (forall node e,
          In node selection -> extractNodeData node expandContent = Throw e -> st' = st).
Proof.
  unfold sendSelectionToUI. destruct selection as [|n rest].
  - exists (setSelectionData VNull st). split; [reflexivity|]. split; [reflexivity|].
    split; [intros _; split; reflexivity|]. split; [discriminate|].
    split; [simpl; intros; lia|]. intros node e [].
  - destruct (map_result _ (n :: rest)) as [records|e] eqn:Hm.
    + exists (setSelectionData (VArr records) st).
      split; [reflexivity|]. split; [reflexivity|]. split; [discriminate|].
      split; [|split].
      * intros node record [= -> ->] Hr. simpl in Hm. rewrite Hr in Hm.
        injection Hm as <-. reflexivity.
      * intros records' [= <-] Hlen.
        pose proof (Forall2_length (map_result_Forall2 _ _ _ Hm)) as Hl.
        split; [|symmetry; exact Hl].
        simpl selectionData. destruct records as [|r [|r' rs]]; try reflexivity.
        simpl in Hl, Hlen. lia.
      * intros node e' Hin He.
        destruct (map_result_throws (fun x => extractNodeData x expandContent) _ _ _ Hin He)
          as [e'' He'']. congruence.
    + exists st. split; [reflexivity|]. split; [reflexivity|]. split; [discriminate|].
      split; [|split].
      * intros node record [= -> ->] Hr. simpl in Hm. rewrite Hr in Hm. discriminate.
      * discriminate.
      * reflexivity.
Qed.

(** X10. The surface's [window.onmessage] throws exactly when [event.data]
    is [null] or [undefined]; otherwise it leaves the state as it is or
    stores the [data] of a [selectionChange], and never changes
    [includeChildren]. *)
Theorem window_onmessage_throws (st : state) (data : value) :
  ((exists e, window_onmessage st data = Throw e) <-> data = VNull \/ data = VUndefined)
  /\ (forall st', window_onmessage st data = Ok st' ->
        includeChildren st' = includeChildren st
        /\ (st' = st
            \/ exists message d,
                 get data "pluginMessage" = Ok message
                 /\ message_type message = Some "selectionChange"
                 /\ get message "data" = Ok d
                 /\ st' = setSelectionData d st)).
Proof.
  unfold window_onmessage, bind. split.
  - split.
    + intros [e He]. destruct data; try (right; reflexivity); try (left; reflexivity); exfalso.
      all: simpl in He.
      all: try discriminate.
      match type of He with
      | context [truthy ?m] => destruct m; simpl in He; try discriminate
      end.
      all: repeat match type of He with
             | (if ?c then _ else _) = _ => destruct c
             end; discriminate.
    + intros [-> | ->]; eexists; reflexivity.
  - intros st' H.
    destruct (get data "pluginMessage") as [message|] eqn:Hm; [|discriminate].
    destruct (truthy message) eqn:Ht; [|injection H as <-; split; [reflexivity|left; reflexivity]].
    destruct (get message "type") as [t|] eqn:Hty; [|discriminate].
    destruct (is_str t "selectionChange") eqn:Es;
      [|injection H as <-; split; [reflexivity|left; reflexivity]].
    destruct (get message "data") as [d|] eqn:Hd; [|discriminate].
    injection H as <-. split; [reflexivity|]. right. exists message, d.
    split; [reflexivity|]. split; [eapply is_str_message_type; eassumption|].
    split; [exact Hd|reflexivity].
Qed.

Lemma window_onmessage_throws_witness :
  window_onmessage initial (envelope (selectionChange (VArr [VObj [("name", VStr "Card")]])))
  = Ok (setSelectionData (VArr [VObj [("name", VStr "Card")]]) initial)
  /\ includeChildren (setSelectionData (VArr [VObj [("name", VStr "Card")]]) initial)
     = includeChildren initial.
Proof.
  split; [reflexivity|].
  exact (proj1 (proj2 (window_onmessage_throws initial
                         (envelope (selectionChange (VArr [VObj [("name", VStr "Card")]]))))
                  _ eq_refl)).
Defined.

(** ** The surface's replies *)

Lemma onmessage_toggleExpand_message (selection : list SceneNode) (b : bool) :
  onmessage selection (toggleExpand_message b) = Ok (sendSelectionToUI selection b).
Proof. destruct b; reflexivity. Qed.

(** X11. The surface's preference reaches the host through the effect on
    [selectionData]: after a [selectionChange] for a non-empty readable
    selection, extracted with any flag, the effect's message is
    [toggleExpand] with the surface's [includeChildren]; the host answers
    it with the records extracted with that flag, and the surface, having
    stored them, would send the same message again.  After a
    [selectionChange] for the empty selection the effect sends nothing. *)
Theorem preference_round_trip (selection : list SceneNode) (flag : bool) (st : state) :
  (selection = [] ->
   exists st1,
     deliver st (posts (sendSelectionToUI selection flag)) = Ok st1
     /\ toggleExpand_effect st1 = [])
  /\ (selection <> [] -> Forall (fun node => readable node = true) selection ->
      exists st1 records st2,
        deliver st (posts (sendSelectionToUI selection flag)) = Ok st1
        /\ toggleExpand_effect st1 = [toggleExpand_message (includeChildren st)]
        /\ map_result (fun node => extractNodeData node (includeChildren st)) selection
           = Ok records
        /\ onmessage selection (toggleExpand_message (includeChildren st))
           = Ok [PostMessage (selectionChange (VArr records))]
        /\ deliver st1 [selectionChange (VArr records)] = Ok st2
        /\ selectionData st2 = VArr records
        /\ includeChildren st2 = includeChildren st
        /\ toggleExpand_effect st2 = toggleExpand_effect st1).
Proof.
  split.
  - intros ->. eexists. split; reflexivity.
  - intros Hne Hr.
    assert (Hall : forall b, exists records,
               map_result (fun node => extractNodeData node b) selection = Ok records).
    { intros b. apply map_result_total. eapply Forall_impl; [|exact Hr].
      intros n Hn. apply extractNodeData_readable, Hn. }
    destruct (Hall flag) as [first Hfirst].
    destruct (Hall (includeChildren st)) as [records Hrecords].
    exists (setSelectionData (VArr first) st), records,
      (setSelectionData (VArr records) (setSelectionData (VArr first) st)).
    rewrite onmessage_toggleExpand_message.
    unfold sendSelectionToUI. destruct selection as [|n rest]; [contradiction Hne; reflexivity|].
    rewrite Hfirst, Hrecords. repeat split; reflexivity.
Qed.

(** X12. The three messages the surface sends are messages the host
    handles, with the payload the host reads: [init] extracts with the flag
    set, [toggleExpand] with the surface's [includeChildren] (negated after
    a click on the checkbox), [notify] shows the fixed text; in its initial
    state, with no selection data, the surface sends no [toggleExpand]. *)
Theorem surface_messages_handled (selection : list SceneNode) (st : state) :
  onmessage selection init_message = Ok (sendSelectionToUI selection true)
  /\ (forall m, In m (toggleExpand_effect st) ->
        onmessage selection m = Ok (sendSelectionToUI selection (includeChildren st))
        /\ well_formed_for_host m = true)
  /\ (forall m, In m (toggleExpand_effect (toggleIncludeChildren st)) ->
        onmessage selection m = Ok (sendSelectionToUI selection (negb (includeChildren st))))
  /\ onmessage selection copied_message = Ok [Notify (VStr "Copied to clipboard!")]
  /\ well_formed_for_host init_message = true
  /\ well_formed_for_host copied_message = true
  /\ toggleExpand_effect initial = [].
Proof.
  split; [reflexivity|]. split; [|split].
  - unfold toggleExpand_effect. intros m H. destruct (truthy (selectionData st)); [|destruct H].
    destruct H as [<-|[]]. split; [apply onmessage_toggleExpand_message|].
    destruct (includeChildren st); reflexivity.
  - unfold toggleExpand_effect. cbn [toggleIncludeChildren selectionData includeChildren].
    intros m H. destruct (truthy (selectionData st)); [|destruct H].
    destruct H as [<-|[]]. apply onmessage_toggleExpand_message.
  - repeat split; reflexivity.
Qed.

(** ** The pieces the estimator counts *)

Lemma is_space_not_special (c : N) : is_space c = true -> is_special c = false.
Proof.
  unfold is_special. intros Hs.
  repeat match goal with
         | |- context [(c =? ?n)%N] =>
             destruct (N.eqb_spec c n) as [->|_]; [discriminate Hs|]
         end.
  reflexivity.
Qed.

Lemma is_digit_not_space (c : N) : is_digit c = true -> is_space c = false.
Proof.
  unfold is_space, is_digit. intros Hd. apply andb_prop in Hd. destruct Hd as [Hlo Hhi].
  apply N.leb_le in Hlo, Hhi.
  repeat match goal with
         | |- context [(c =? ?n)%N] =>
             replace (c =? n)%N with false by (symmetry; apply N.eqb_neq; lia)
         end.
  replace (c <=? 13)%N with false by (symmetry; apply N.leb_gt; lia).
  replace (8192 <=? c)%N with false by (symmetry; apply N.leb_gt; lia).
  rewrite andb_false_r. reflexivity.
Qed.

Lemma is_space_not_digit (c : N) : is_space c = true -> is_digit c = false.
Proof.
  intros Hs. destruct (is_digit c) eqn:Hd; [|reflexivity].
  rewrite (is_digit_not_space c Hd) in Hs. discriminate.
Qed.

Lemma blank_counts (s : text) :
  forallb is_space s = true ->
  wordCount s = 0%nat /\ specialCharCount s = 0%nat /\ numberTokenCount s = 0%nat.
Proof.
  unfold wordCount, specialCharCount, numberTokenCount.
  induction s as [|c rest IH]; simpl; [repeat split; reflexivity|].
  intros H. apply andb_prop in H. destruct H as [Hc Hrest].
  destruct (IH Hrest) as [Hw [Hs Hn]].
  rewrite Hc, (is_space_not_special c Hc), (is_space_not_digit c Hc). simpl.
  split; [exact Hw|]. split; [exact Hs|].
  destruct (is_dot c); exact Hn.
Qed.

(** X13. A text that is not empty and holds only white space is estimated
    at one token: the three counts are zero and [Math.max] lifts the sum
    to 1. *)
Theorem calculateTokens_blank (s : text) :
  s <> [] -> forallb is_space s = true -> calculateTokens s = IInt 1.
Proof.
  intros Hne Hb.
  destruct (blank_counts s Hb) as [Hw [Hs Hn]].
  destruct s as [|c rest]; [contradiction Hne; reflexivity|].
  unfold calculateTokens.
  rewrite words_count, match_special_count, match_number_count, Hw, Hs, Hn.
  vm_compute. reflexivity.
Qed.

Lemma split_from_pieces (s : text) :
  forall in_sep piece,
    forallb not_space piece = true ->
    Forall (fun w => forallb not_space w = true) (split_from in_sep piece s)
    /\ List.concat (split_from in_sep piece s) = (piece ++ filter not_space s)%list.
Proof.
  induction s as [|c rest IH]; intros in_sep piece Hp; cbn [split_from filter].
  - split; [repeat constructor; exact Hp|]. simpl. reflexivity.
  - assert (Hn : not_space c = negb (is_space c)) by reflexivity. rewrite Hn.
    destruct (is_space c) eqn:Hc; cbn [negb].
    + destruct in_sep.
      * apply IH, Hp.
      * destruct (IH true [] eq_refl) as [HF HC].
        split; [constructor; assumption|]. cbn [List.concat]. rewrite HC. reflexivity.
    + destruct (IH false (piece ++ [c])%list) as [HF HC].
      { rewrite forallb_app, Hp. simpl. rewrite Hn. reflexivity. }
      split; [exact HF|]. rewrite HC, <- app_assoc. reflexivity.
Qed.

(** X14. The words the estimator counts are the text with its white space
    taken out: their concatenation is the text's other characters in
    order, none of them is empty and none holds white space; the empty
    pieces that [split] yields at the ends carry nothing. *)
Theorem words_partition (s : text) :
  List.concat (words s) = filter not_space s
  /\ Forall (fun w => w <> [] /\ forallb not_space w = true) (words s)
  /\ List.concat (split_spaces s) = filter not_space s.
Proof.
  unfold words, split_spaces.
  destruct (split_from_pieces s false [] eq_refl) as [HF HC].
  cbn [List.app] in HC.
  split; [|split; [|exact HC]].
  - rewrite <- HC. clear HF HC.
    induction (split_from false [] s) as [|w ws IH]; [reflexivity|].
    destruct w as [|c w]; simpl.
    + exact IH.
    + f_equal. f_equal. exact IH.
  - apply Forall_forall. intros w Hw. apply filter_In in Hw. destruct Hw as [Hin Hlen].
    rewrite Forall_forall in HF. split; [|apply HF, Hin].
    intros ->. discriminate Hlen.
Qed.








(** ** Division rounded to an integer *)

Lemma located_shr_1 (A B : Z) (mrs : shr_record) :
  0 < B -> 0 <= shr_m mrs -> located A B mrs -> located A (2 * B) (shr_1 mrs).
Proof.
  intros HB Hm [Hrem [Hr Hs]].
  destruct mrs as [m r s]. cbn [shr_m shr_r shr_s] in *.
  assert (Hcases : (r = true \/ r = false) /\ (s = true \/ s = false))
    by (destruct r, s; auto).
  unfold located.
  destruct m as [|[p|p|]|p]; cbn [shr_1 shr_m shr_r shr_s]; try lia.
  - (* 0 *)
    split; [lia|]. split; [split; [discriminate|lia]|].
    rewrite orb_true_iff. destruct r, s; intuition (try discriminate; try lia).
  - (* 2p+1 *)
    rewrite Pos2Z.inj_xI in *.
    split; [lia|]. split; [split; [lia|reflexivity]|].
    rewrite orb_true_iff. destruct r, s; intuition (try discriminate; try lia).
  - rewrite Pos2Z.inj_xO in *.
    split; [lia|]. split; [split; [discriminate|lia]|].
    rewrite orb_true_iff. destruct r, s; intuition (try discriminate; try lia).
  - split; [lia|]. split; [split; [lia|reflexivity]|].
    rewrite orb_true_iff. destruct r, s; intuition (try discriminate; try lia).
Qed.

Lemma located_iter (A : Z) (p : positive) :
  forall B mrs, 0 < B -> 0 <= shr_m mrs -> located A B mrs ->
    located A (2 ^ Zpos p * B) (iter_pos shr_1 p mrs) /\ 0 <= shr_m (iter_pos shr_1 p mrs).
Proof.
  assert (step : forall B mrs, 0 < B -> 0 <= shr_m mrs -> located A B mrs ->
            located A (2 * B) (shr_1 mrs) /\ 0 <= shr_m (shr_1 mrs)).
  { intros B mrs HB Hm H. split; [apply located_shr_1; assumption|].
    apply (shr_1_value mrs Hm). }
  induction p as [p IH|p IH|]; intros B mrs HB Hm H; cbn [iter_pos].
  - assert (Hpow : 0 < 2 ^ Zpos p) by pow_positive.
    destruct (step B mrs HB Hm H) as [L1 H1].
    destruct (IH (2 * B) _ ltac:(lia) H1 L1) as [L2 H2].
    destruct (IH (2 ^ Zpos p * (2 * B)) _ ltac:(lia) H2 L2) as [L3 H3].
    split; [|exact H3].
    replace (2 ^ Zpos p~1 * B) with (2 ^ Zpos p * (2 ^ Zpos p * (2 * B))); [exact L3|].
    replace (Zpos p~1) with (1 + (Zpos p + Zpos p)) by lia.
    rewrite !Z.pow_add_r, Z.pow_1_r by lia. lia.
  - assert (Hpow : 0 < 2 ^ Zpos p) by pow_positive.
    destruct (IH B _ HB Hm H) as [L2 H2].
    destruct (IH (2 ^ Zpos p * B) _ ltac:(lia) H2 L2) as [L3 H3].
    split; [|exact H3].
    replace (2 ^ Zpos p~0 * B) with (2 ^ Zpos p * (2 ^ Zpos p * B)); [exact L3|].
    replace (Zpos p~0) with (Zpos p + Zpos p) by lia.
    rewrite !Z.pow_add_r by lia. lia.
  - rewrite Z.pow_1_r. apply step; assumption.
Qed.

Lemma located_new_location (q B r : Z) :
  0 < B -> 0 <= r < B ->
  located (q * B + r) B (shr_record_of_loc q (new_location B r)).
Proof.
  intros HB Hr. unfold new_location, new_location_even, new_location_odd, located.
  destruct (Z.even B) eqn:Ev.
  - destruct (Z.eqb_spec r 0) as [->|Hn]; cbn [shr_record_of_loc shr_m shr_r shr_s].
    + replace (q * B + 0 - q * B) with 0 by lia.
      split; [lia|]. split; split; try discriminate; lia.
    + replace (q * B + r - q * B) with r by lia.
      destruct (Z.compare_spec (2 * r) B) as [E|E|E];
        cbn [shr_record_of_loc shr_m shr_r shr_s];
        (split; [lia|]); split; split; try discriminate; try reflexivity; lia.
  - assert (Hodd : B mod 2 = 1).
    { rewrite Zeven_mod in Ev. apply Z.eqb_neq in Ev.
      pose proof (Z.mod_pos_bound B 2 ltac:(lia)). lia. }
    assert (Hne : 2 * r <> B).
    { intros <-. rewrite Z.mul_comm, Z.mod_mul in Hodd by lia. discriminate. }
    destruct (Z.eqb_spec r 0) as [->|Hn]; cbn [shr_record_of_loc shr_m shr_r shr_s].
    + replace (q * B + 0 - q * B) with 0 by lia.
      split; [lia|]. split; split; try discriminate; lia.
    + replace (q * B + r - q * B) with r by lia.
      destruct (Z.compare_spec (2 * r + 1) B) as [E|E|E];
        cbn [shr_record_of_loc shr_m shr_r shr_s];
        (split; [lia|]); split; split; try discriminate; try reflexivity; lia.
Qed.

Lemma shr_fexp_located (A B m e : Z) (l : location) :
  0 < B -> 0 <= m -> located A B (shr_record_of_loc m l) ->
  let '(mrs, e') := shr_fexp prec emax m e l in
  e' = Z.max e (fexp prec emax (Zdigits2 m + e))
  /\ 0 <= shr_m mrs
  /\ located A (2 ^ (e' - e) * B) mrs.
Proof.
  intros HB Hm H. unfold shr_fexp, shr.
  assert (Hrec : shr_m (shr_record_of_loc m l) = m) by (destruct l as [|[| |]]; reflexivity).
  destruct (fexp prec emax (Zdigits2 m + e) - e) as [|p|p] eqn:En.
  - rewrite Hrec, Z.sub_diag, Z.pow_0_r, Z.mul_1_l.
    split; [lia|]. split; [exact Hm|exact H].
  - destruct (located_iter A p B (shr_record_of_loc m l) HB) as [L1 H1];
      [rewrite Hrec; exact Hm|exact H|].
    replace (e + Zpos p - e) with (Zpos p) by lia.
    split; [lia|]. split; assumption.
  - rewrite Hrec, Z.sub_diag, Z.pow_0_r, Z.mul_1_l.
    split; [lia|]. split; [exact Hm|exact H].
Qed.

(** Rounding to nearest even moves the floor to an integer at most half a
    unit away from the quotient, so it never crosses an integer multiple. *)
Lemma located_round_nearest_even (A B : Z) (mrs : shr_record) (t : Z) :
  0 < B -> located A B mrs ->
  (t * B <= A -> t <= round_nearest_even (shr_m mrs) (loc_of_shr_record mrs))
  /\ (A <= t * B -> round_nearest_even (shr_m mrs) (loc_of_shr_record mrs) <= t).
Proof.
  intros HB [Hrem [Hr Hs]]. destruct mrs as [m r s]. cbn [shr_m shr_r shr_s] in *.
  unfold loc_of_shr_record, round_nearest_even.
  destruct r, s; cbn [shr_r shr_s].
  - assert (B <= 2 * (A - m * B)) by (apply Hr; reflexivity). split; intros; nia.
  - assert (B <= 2 * (A - m * B)) by (apply Hr; reflexivity).
    assert (2 * (A - m * B) = B).
    { destruct (Z.eq_dec (2 * (A - m * B)) B) as [E|E]; [exact E|].
      assert (false = true); [apply Hs; lia|discriminate]. }
    destruct (Z.even m); split; intros; nia.
  - assert (~ B <= 2 * (A - m * B)) by (intros X; apply Hr in X; discriminate).
    split; intros; nia.
  - assert (~ B <= 2 * (A - m * B)) by (intros X; apply Hr in X; discriminate).
    split; intros; nia.
Qed.

Lemma SFdiv_core_located (m1 m2 : positive) (e1 e2 : Z) :
  let '(q, e', l) := SFdiv_core_binary prec emax (Zpos m1) e1 (Zpos m2) e2 in
  e' = Z.min (fexp prec emax (Zdigits2 (Zpos m1) + e1 - (Zdigits2 (Zpos m2) + e2))) (e1 - e2)
  /\ 0 <= q
  /\ located (Zpos m1 * 2 ^ (e1 - e2 - e')) (Zpos m2) (shr_record_of_loc q l).
Proof.
  unfold SFdiv_core_binary.
  set (e' := Z.min _ (e1 - e2)).
  assert (He' : e' <= e1 - e2) by (unfold e'; lia).
  set (m' := match e1 - e2 - e' with Z0 => Zpos m1 | Zpos _ => _ | Zneg _ => 0 end).
  assert (Hm' : m' = Zpos m1 * 2 ^ (e1 - e2 - e')).
  { unfold m'. destruct (e1 - e2 - e') as [|s|s] eqn:Es; [|apply Z.shiftl_mul_pow2|]; lia. }
  pose proof (Z_div_mod m' (Zpos m2) ltac:(lia)) as Hdiv.
  destruct (Z.div_eucl m' (Zpos m2)) as [q r]. destruct Hdiv as [Eq Hr].
  split; [reflexivity|].
  assert (0 <= m') by (rewrite Hm'; assert (0 < 2 ^ (e1 - e2 - e')) by pow_positive; lia).
  split; [nia|].
  rewrite <- Hm', Eq. replace (Zpos m2 * q + r) with (q * Zpos m2 + r) by lia.
  apply located_new_location; lia.
Qed.

Lemma of_Z_canonical (k : Z) :
  0 < k < 2 ^ 53 ->
  exists (m : positive) (a : Z),
    of_Z k = S754_finite false m (- a)
    /\ Zdigits2 (Zpos m) = 53 /\ 0 <= a /\ a = 53 - Zdigits2 k /\ Zpos m = k * 2 ^ a.
Proof.
  intros Hk. destruct k as [|p|p]; try lia.
  unfold of_Z, binary_normalize, binary_round.
  pose proof (digits_le p 53 ltac:(lia) ltac:(lia)) as Hd. pose proof (digits_pos p) as Hp.
  change (Zpos (digits2_pos p)) with (Zdigits2 (Zpos p)).
  assert (Hf : fexp prec emax (Zdigits2 (Zpos p) + 0) = Zdigits2 (Zpos p) - 53).
  { unfold fexp, SpecFloat.emin, prec, emax. lia. }
  rewrite Hf. unfold shl_align.
  destruct (Zdigits2 (Zpos p) - 53 - 0) as [|q|q] eqn:Eq; [|lia|].
  - rewrite binary_round_aux_canonical by lia.
    exists p, 0. rewrite Z.pow_0_r. repeat split; lia.
  - rewrite binary_round_aux_canonical by (rewrite ?digits_iter_xO; lia).
    exists (Pos.iter xO p q), (Zpos q).
    rewrite digits_iter_xO, iter_xO_value.
    replace (Zdigits2 (Zpos p) - 53) with (- Zpos q) by lia.
    repeat split; lia.
Qed.

Lemma between_halve (g K m e : Z) :
  1 <= g -> between g K m e -> e + 1 <= - g -> between g K (m / 2) (e + 1).
Proof.
  intros Hg [He [Hlo Hhi]] He'. split; [exact He'|].
  assert (E1 : 2 ^ (- e - 1) = 2 * 2 ^ (- (e + 1) - 1)).
  { rewrite <- Z.pow_succ_r by lia. f_equal. lia. }
  assert (E2 : 2 ^ (- e - g) = 2 * 2 ^ (- (e + 1) - g)).
  { rewrite <- Z.pow_succ_r by lia. f_equal. lia. }
  rewrite E1 in Hlo. rewrite E2 in Hhi.
  set (Y := 2 ^ (- (e + 1) - 1)) in *. set (W := 2 ^ (- (e + 1) - g)) in *.
  set (C := (2 * K + 1) * 2 ^ (g - 1) - 1) in *.
  clearbody Y W C.
  split.
  - apply Z.div_le_lower_bound; lia.
  - apply Z.div_le_upper_bound; lia.
Qed.

Lemma between_Math_round (g K : Z) (m : positive) (e : Z) :
  1 <= g -> between g K (Zpos m) e -> Math_round (S754_finite false m e) = IInt K.
Proof.
  intros Hg [He [Hlo Hhi]]. destruct e as [|p|p]; try lia.
  cbn [Math_round cond_Zopp]. f_equal.
  set (Y := 2 ^ (- Zneg p - g)) in *. set (G := 2 ^ (g - 1)) in *.
  assert (HY : 0 < Y) by (unfold Y; pow_positive).
  assert (E1 : 2 ^ (- Zneg p - 1) = G * Y).
  { unfold Y, G. rewrite <- Z.pow_add_r by lia. f_equal. lia. }
  assert (E2 : 2 ^ Zpos p = 2 * (G * Y)).
  { rewrite <- E1, <- Z.pow_succ_r by lia. f_equal. lia. }
  assert (E3 : 2 ^ (Zpos p + 1) = 4 * (G * Y)).
  { rewrite Z.pow_add_r, E2 by lia. lia. }
  rewrite E1 in Hlo. rewrite E2, E3. clearbody Y G.
  symmetry. apply Z.div_unique with (r := 2 * Zpos m + 2 * (G * Y) - 4 * (G * Y) * K); lia.
Qed.

Lemma between_zero (g K e : Z) : 1 <= g -> between g K 0 e -> K = 0.
Proof.
  intros Hg [He [Hlo Hhi]].
  assert (0 < 2 ^ (- e - 1)) by pow_positive. assert (0 < 2 ^ (- e - g)) by pow_positive.
  assert (0 <= 2 ^ (g - 1)) by (apply Z.pow_nonneg; lia).
  nia.
Qed.

(** The quotient of two positive Numbers with full mantissas, rounded to
    an integer: it is [K] when the exact quotient lies between [K - 1/2]
    and [K + 1/2 - 2 ^ - g], the divisor being below [2 ^ g]. *)
Lemma SFdiv_Math_round (m md : positive) (a g K : Z) :
  Zdigits2 (Zpos m) = 53 -> Zdigits2 (Zpos md) = 53 -> 2 <= a <= 52 -> 1 <= g <= 52 ->
  (2 * K - 1) * 2 ^ (a + g - 1) * Zpos md <= Zpos m * 2 ^ 53 ->
  Zpos m * 2 ^ 53 <= ((2 * K + 1) * 2 ^ (g - 1) - 1) * 2 ^ a * Zpos md ->
  Math_round (div (S754_finite false m (- a)) (S754_finite false md (g - 53))) = IInt K.
Proof.
  intros Hd Hdd Ha Hg Hlo Hhi. unfold div. cbn [SFdiv xorb].
  pose proof (SFdiv_core_located m md (- a) (g - 53)) as Hc.
  destruct (SFdiv_core_binary prec emax (Zpos m) (- a) (Zpos md) (g - 53)) as [[q e'] l].
  destruct Hc as [He' [Hq Hloc]].
  rewrite Hd, Hdd in He'.
  assert (He : e' = - a - g) by (rewrite He'; binary64_constants; lia).
  clear He'. subst e'.
  replace (- a - (g - 53) - (- a - g)) with 53 in Hloc by lia.
  pose proof (digits_bounds m) as Hbm. rewrite Hd in Hbm.
  pose proof (digits_bounds md) as Hbd. rewrite Hdd in Hbd.
  set (A := Zpos m * 2 ^ 53) in *. set (B := Zpos md) in *.
  assert (HB : 0 < B) by (unfold B; lia).
  assert (HqA : q * B <= A).
  { destruct Hloc as [Hrem _].
    replace (shr_m (shr_record_of_loc q l)) with q in Hrem
      by (destruct l as [|[| |]]; reflexivity). lia. }
  assert (Hdq : Zdigits2 q <= 54).
  { destruct q as [|p|p]; [simpl; lia| |lia]. apply digits_le; [lia|].
    change (53 - 1) with 52 in Hbd.
    change (2 ^ 52) with 4503599627370496 in Hbd.
    change (2 ^ 53) with 9007199254740992 in *.
    change (2 ^ 54) with 18014398509481984.
    unfold A in HqA. nia. }
  unfold binary_round_aux.
  pose proof (shr_fexp_located A B q (- a - g) l HB Hq Hloc) as H1.
  pose proof (shr_fexp_bounds q (- a - g) l Hq) as H1b.
  destruct (shr_fexp prec emax q (- a - g) l) as [mrs1 E1].
  destruct H1 as [HE1 [Hm1 L1]]. destruct H1b as [_ [_ Hd1]].
  pose proof (round_nearest_even_bounds (shr_m mrs1) (loc_of_shr_record mrs1) Hm1) as [Hr Hrd].
  set (m' := round_nearest_even (shr_m mrs1) (loc_of_shr_record mrs1)) in *.
  assert (Hn1 : 0 <= E1 - (- a - g) <= 1) by (binary64_constants; lia).
  assert (Hdm : Zdigits2 m' <= 54) by (binary64_constants; lia).
  pose proof (shr_fexp_value m' E1 Hr) as H2.
  destruct (shr_fexp prec emax m' E1 loc_Exact) as [mrs2 E2].
  destruct H2 as [HE2 [Hv2 _]].
  assert (Hn2 : E2 = E1 \/ E2 = E1 + 1) by (binary64_constants; lia).
  set (n1 := E1 - (- a - g)) in *.
  assert (B1pos : 0 < 2 ^ n1 * B).
  { assert (0 < 2 ^ n1) by pow_positive. lia. }
  assert (Hb1 : between g K m' E1).
  { split; [lia|]. split.
    - apply (located_round_nearest_even A _ mrs1 _ B1pos L1).
      replace (- E1 - 1) with (a + g - 1 - n1) by lia.
      replace ((2 * K - 1) * 2 ^ (a + g - 1 - n1) * (2 ^ n1 * B))
        with ((2 * K - 1) * 2 ^ (a + g - 1) * B); [exact Hlo|].
      replace (a + g - 1) with (a + g - 1 - n1 + n1) at 1 by lia.
      rewrite Z.pow_add_r by lia. ring.
    - apply (located_round_nearest_even A _ mrs1 _ B1pos L1).
      replace (- E1 - g) with (a - n1) by lia.
      replace (((2 * K + 1) * 2 ^ (g - 1) - 1) * 2 ^ (a - n1) * (2 ^ n1 * B))
        with (((2 * K + 1) * 2 ^ (g - 1) - 1) * 2 ^ a * B); [exact Hhi|].
      replace a with (a - n1 + n1) at 1 by lia.
      rewrite Z.pow_add_r by lia. ring. }
  assert (Hb2 : between g K (shr_m mrs2) E2).
  { rewrite Hv2. destruct Hn2 as [-> | ->].
    - rewrite Z.sub_diag, Z.pow_0_r, Z.div_1_r. exact Hb1.
    - replace (E1 + 1 - E1) with 1 by lia. rewrite Z.pow_1_r.
      apply between_halve; [lia|exact Hb1|lia]. }
  destruct (shr_m mrs2) as [|m2|m2] eqn:Em2.
  - cbn [Math_round]. f_equal. symmetry. exact (between_zero g K E2 ltac:(lia) Hb2).
  - replace (E2 <=? emax - prec) with true
      by (symmetry; apply Z.leb_le; binary64_constants; lia).
    apply (between_Math_round g); [lia|exact Hb2].
  - pose proof (Z.div_pos m' (2 ^ (E2 - E1)) Hr ltac:(pow_positive)). lia.
Qed.

Lemma of_Z_mantissa (k : Z) :
  0 < k < 2 ^ 51 ->
  exists (m : positive) (a X : Z),
    of_Z k = S754_finite false m (- a)
    /\ Zdigits2 (Zpos m) = 53 /\ 2 <= a <= 52 /\ 0 < X /\ 2 ^ a = X /\ Zpos m = k * X.
Proof.
  intros Hk.
  destruct (of_Z_canonical k ltac:(lia)) as (m & a & E & Hd & Ha & Hak & Hm).
  exists m, a, (2 ^ a). split; [exact E|]. split; [exact Hd|]. split.
  - destruct k as [|p|p]; try lia.
    pose proof (digits_le p 51 ltac:(lia) ltac:(lia)). pose proof (digits_pos p). lia.
  - split; [pow_positive|]. split; [reflexivity|exact Hm].
Qed.

(** [Math.round(k / 1000)] is [k] rounded to thousands, half up. *)
Lemma round_div_1000 (k : Z) :
  0 < k < 2 ^ 51 -> Math_round (div (of_Z k) lit_1000) = IInt ((k + 500) / 1000).
Proof.
  intros Hk.
  destruct (of_Z_mantissa k Hk) as (m & a & X & E & Hd & Ha & HX & HaX & Hm).
  set (K := (k + 500) / 1000).
  assert (HK : 1000 * K <= k + 500 <= 1000 * K + 999).
  { unfold K. pose proof (Z.div_mod (k + 500) 1000 ltac:(lia)).
    pose proof (Z.mod_pos_bound (k + 500) 1000 ltac:(lia)). lia. }
  clearbody K.
  assert (HKX : 1000 * (K * X) <= k * X + 500 * X <= 1000 * (K * X) + 999 * X) by nia.
  rewrite E. unfold lit_1000. change (-43) with (10 - 53).
  apply SFdiv_Math_round; [exact Hd|reflexivity|exact Ha|lia| |].
  - replace (a + 10 - 1) with (a + 9) by lia.
    rewrite Z.pow_add_r, HaX, Hm by lia.
    change (2 ^ 9) with 512. change (2 ^ 53) with 9007199254740992. lia.
  - rewrite HaX, Hm. change (2 ^ (10 - 1)) with 512.
    change (2 ^ 53) with 9007199254740992. lia.
Qed.

(** [Math.round(k / 100)] is [k] rounded to hundreds, half up. *)
Lemma round_div_100 (k : Z) :
  0 < k < 2 ^ 51 -> Math_round (div (of_Z k) lit_100) = IInt ((k + 50) / 100).
Proof.
  intros Hk.
  destruct (of_Z_mantissa k Hk) as (m & a & X & E & Hd & Ha & HX & HaX & Hm).
  set (K := (k + 50) / 100).
  assert (HK : 100 * K <= k + 50 <= 100 * K + 99).
  { unfold K. pose proof (Z.div_mod (k + 50) 100 ltac:(lia)).
    pose proof (Z.mod_pos_bound (k + 50) 100 ltac:(lia)). lia. }
  clearbody K.
  assert (HKX : 100 * (K * X) <= k * X + 50 * X <= 100 * (K * X) + 99 * X) by nia.
  rewrite E. unfold lit_100. change (-46) with (7 - 53).
  apply SFdiv_Math_round; [exact Hd|reflexivity|exact Ha|lia| |].
  - replace (a + 7 - 1) with (a + 6) by lia.
    rewrite Z.pow_add_r, HaX, Hm by lia.
    change (2 ^ 6) with 64. change (2 ^ 53) with 9007199254740992. lia.
  - rewrite HaX, Hm. change (2 ^ (7 - 1)) with 64.
    change (2 ^ 53) with 9007199254740992. lia.
Qed.

(** ** The label of a token count *)

Lemma tenths_table : forallb tenths_agree (seq 10 91) = true.
Proof. vm_compute. reflexivity. Qed.

(** X16. Below 10000 the label is the one of exact decimal arithmetic: the
    count itself below 1000, and from 1000 on the count rounded to hundreds,
    half up, written in thousands with one decimal and a [k] (so 1049 is
    [1.0k], 1050 is [1.1k], and 9950 to 9999 are [10.0k]).  The binary64
    divisions, [Math.round] and [toFixed(1)] agree with it on every such
    count. *)
Theorem formatTokenCount_below_10000 (k : Z) :
  0 <= k < 10000 -> formatTokenCount (IInt k) = Some (short_label k).
Proof.
  intros Hk. unfold formatTokenCount, short_label, less_than.
  destruct (Z.ltb_spec k 1000) as [Hlt|Hge].
  - cbn [toString10].
    replace (Z.abs k <? 10 ^ 21) with true; [reflexivity|].
    symmetry. apply Z.ltb_lt. change (10 ^ 21) with 1000000000000000000000. lia.
  - replace (k <? 10000) with true by (symmetry; apply Z.ltb_lt; lia).
    cbn [of_integral]. rewrite round_div_100 by lia. cbn [of_integral].
    set (q := (k + 50) / 100).
    assert (Hq : 10 <= q <= 100).
    { unfold q. split; [apply Z.div_le_lower_bound; lia|].
      apply Z.lt_succ_r. apply Z.div_lt_upper_bound; lia. }
    clearbody q.
    pose proof tenths_table as T. rewrite forallb_forall in T.
    specialize (T (Z.to_nat q)). unfold tenths_agree in T. rewrite Z2Nat.id in T by lia.
    assert (Hin : In (Z.to_nat q) (seq 10 91)) by (apply in_seq; lia).
    specialize (T Hin).
    destruct (toFixed1 (div (of_Z q) lit_10)) as [s|]; [|discriminate T].
    apply String.eqb_eq in T. rewrite T. reflexivity.
Qed.

Lemma formatTokenCount_below_10000_witness :
  0 <= 9950 < 10000 /\ formatTokenCount (IInt 9950) = Some "10.0k".
Proof.
  split; [lia|]. exact (formatTokenCount_below_10000 9950 ltac:(lia)).
Defined.

(** X17. From 10000 on (and below [2 ^ 51]) the label is the count rounded
    to thousands, half up, followed by [k]: the binary64 quotient
    [count / 1000] rounds under [Math.round] to [floor ((count + 500) /
    1000)], the inexact division never moving it across a half. *)
Theorem formatTokenCount_thousands (k : Z) :
  10000 <= k < 2 ^ 51 -> formatTokenCount (IInt k) = Some (short_label k).
Proof.
  intros Hk. unfold formatTokenCount, short_label, less_than.
  replace (k <? 1000) with false by (symmetry; apply Z.ltb_ge; lia).
  replace (k <? 10000) with false by (symmetry; apply Z.ltb_ge; lia).
  cbn [of_integral]. rewrite round_div_1000 by lia. cbn [toString10].
  replace (Z.abs ((k + 500) / 1000) <? 10 ^ 21) with true; [reflexivity|].
  symmetry. apply Z.ltb_lt.
  assert (0 <= (k + 500) / 1000) by (apply Z.div_pos; lia).
  assert ((k + 500) / 1000 < 2 ^ 51) by (apply Z.div_lt_upper_bound; lia).
  change (2 ^ 51) with 2251799813685248 in *.
  change (10 ^ 21) with 1000000000000000000000. lia.
Qed.

Lemma formatTokenCount_thousands_witness :
  10000 <= 123456 < 2 ^ 51 /\ formatTokenCount (IInt 123456) = Some "123k".
Proof.
  split; [lia|]. exact (formatTokenCount_thousands 123456 ltac:(lia)).
Defined.

Lemma calculateTokens_blank_witness :
  [32%N] <> [] /\ forallb is_space [32%N] = true /\ calculateTokens [32%N] = IInt 1.
Proof.
  split; [discriminate|]. split; [reflexivity|].
  apply (calculateTokens_blank [32%N]); [discriminate|reflexivity].
Defined.
